(** * The Luna recommendation engine ([recommendation.py])

    A shallow embedding of the distance calculator, the compatibility
    scorer, the venue recommender and the people recommender, followed by
    the properties of the engine's specification.

    Numbers.  The values Python computes in floating point are idealised as
    real numbers: [math.sin], [math.cos], [math.sqrt] and [math.atan2] are
    the functions of the Standard Library's [Reals] ([atan2] is built from
    [atan]), and a score or a distance is the exact value of its formula.
    Integer values ([len], the price ordinals, [top_n]) stay integers, and a
    true division by the integer zero raises [ZeroDivisionError] as it does
    in Python.

    One comparison is decided by rounding on everyday inputs: the interest
    signal of lines 104-115 is a sum of two quotients compared with the
    literal [0.3], and for 6 seconds of viewing and 1 matching tag out of 5
    the sum [0 + 6/60 + 1/5] is [0.30000000000000004] in binary64 while
    [0.3] itself is [0.299999999999999989].  The signal is therefore
    computed as Python computes it, every quotient and sum rounded to the
    nearest binary64 number ([binary64], ties to even).  A recorded viewing
    duration is the exact value of the number stored: an int, or a float,
    which is a binary64 number already.

    Two exceptions of the floating-point run time have no counterpart on
    the reals and are outside the model: [math.sqrt(1 - a)] on line 16
    raises [ValueError] when rounding has pushed the haversine term [a]
    above 1 (points close to antipodal, or coordinates so large that their
    difference overflows), and [n / 60] raises [OverflowError] for an int
    [n] beyond the range of a float.  The predicates [clear_of_antipodes]
    and [fits_float] name inputs on which neither can occur; they are
    hypotheses of the properties that depend on it.

    Errors.  A computation either returns a value or raises; [result] is the
    error monad threaded through the two loops of [recommend_venues]. *)

From Stdlib Require Import Reals Machin Lra Lia ZArith.
From stdpp Require Import gmap strings list sorting pretty.

#[local] Open Scope R_scope.
#[local] Set Warnings "-clear-no-such-hyp".

(** ** Python run-time model *)

Inductive PyError : Type :=
  | ZeroDivisionError
  | KeyError (key : string).

Inductive result (A : Type) : Type :=
  | Return (a : A)
  | Raise (e : PyError).
Arguments Return {A} a.
Arguments Raise {A} e.

#[global] Instance result_ret : MRet result := fun _ a => Return a.

#[global] Instance result_bind : MBind result := fun _ _ k m =>
  match m with
  | Return a => k a
  | Raise e => Raise e
  end.

(** [==] on two floats. *)
#[global] Instance R_eq_dec : EqDecision R := Req_dec_T.

(** [a / b] on two Python ints: true division, [ZeroDivisionError] on a zero
    divisor. *)
Definition py_truediv (a b : nat) : result R :=
  match b with
  | O => Raise ZeroDivisionError
  | S _ => Return (INR a / INR b)
  end.

(** [d[k]] on a dict. *)
Definition dict_getitem {V : Type} (d : gmap string V) (k : string) : result V :=
  match d !! k with
  | Some v => Return v
  | None => Raise (KeyError k)
  end.

(** [set(l)] on a list of strings. *)
Definition py_set (l : list string) : gset string := list_to_set l.

(** Round half to even, the rule of Python's [round]. *)
Definition round_half_even (x : R) : Z :=
  let n := Int_part x in
  let f := frac_part x in
  if Rlt_dec f (1 / 2) then n
  else if Rlt_dec (1 / 2) f then (n + 1)%Z
  else if Z.even n then n else (n + 1)%Z.

(** [round(x, ndigits)]. *)
Definition py_round (x : R) (ndigits : nat) : R :=
  IZR (round_half_even (x * 10 ^ ndigits)) / 10 ^ ndigits.

(** The exponent of a non-zero binary64 number: [2^e <= |x| < 2^(e+1)]. *)
Definition binade (x : R) : Z := Int_part (ln (Rabs x) / ln 2).

(** The binary64 number nearest to [x], ties to even: 53 significant bits.
    (The exponent is not bounded; overflow is [fits_float]'s business.) *)
Definition binary64 (x : R) : R :=
  if Req_dec_T x 0 then 0
  else IZR (round_half_even (x * powerRZ 2 (52 - binade x)))
       * powerRZ 2 (binade x - 52).

(** [x + y] and [x / y] on numbers of which one is a float, or on two ints
    for [/]: the exact result, rounded. *)
Definition float_add (x y : R) : R := binary64 (x + y).
Definition float_truediv (x y : R) : R := binary64 (x / y).

(** [math.radians]. *)
Definition radians (x : R) : R := x * (PI / 180).

(** [math.atan2 y x]: the angle of the point [(x, y)], in (-PI, PI]. *)
Definition atan2 (y x : R) : R :=
  if Rlt_dec 0 x then atan (y / x)
  else if Rlt_dec x 0 then
    (if Rle_dec 0 y then atan (y / x) + PI else atan (y / x) - PI)
  else if Rlt_dec 0 y then PI / 2
  else if Rlt_dec y 0 then - (PI / 2)
  else 0.

(** [l.sort(key=key, reverse=True)]: a stable sort, descending by key; equal
    keys keep their original order. *)
Fixpoint insert_desc {A : Type} (key : A → R) (x : A) (l : list A) : list A :=
  match l with
  | [] => [x]
  | y :: l' =>
      if Rlt_dec (key x) (key y) then y :: insert_desc key x l'
      else x :: y :: l'
  end.

Fixpoint sort_reverse {A : Type} (key : A → R) (l : list A) : list A :=
  match l with
  | [] => []
  | x :: l' => insert_desc key x (sort_reverse key l')
  end.

(** [l[:n]] for a Python int [n]: a negative [n] counts from the end. *)
Definition py_slice_to {A : Type} (l : list A) (n : Z) : list A :=
  if (n <? 0)%Z then take (Z.to_nat (Z.of_nat (length l) + n)) l
  else take (Z.to_nat n) l.

(** ** Data model ([models.py]) *)

Module User.
Record t : Type := mk {
  id : string;
  name : string;
  latitude : R;
  longitude : R;
  interests : list string;
  preferred_price_range : string;
  viewing_history : gmap string R  (* venue_id -> seconds_viewed *)
}.
End User.

Module Venue.
Record t : Type := mk {
  id : string;
  name : string;
  category : string;
  latitude : R;
  longitude : R;
  price_range : string;
  tags : list string;
  description : string
}.
End Venue.

Module CompatibilityScore.
Record t : Type := mk {
  user_id : string;
  user_name : string;
  score : R;
  shared_interests : list string;
  distance_km : R
}.
End CompatibilityScore.

(** The reason strings of a recommendation, kept as the f-string that
    produced them together with the values interpolated into it. *)
Inductive Reason : Type :=
  | OnlyKmAway (distance : R)              (* "Only {distance:.1f}km away" *)
  | MatchesInterests (matching_tags : gset string)
                                           (* "Matches your interests: ..." *)
  | FitsBudget (price_range : string)      (* "Fits your {price_range} budget" *)
  | SpentViewing (view_time : R)           (* "You spent {view_time}s viewing this" *)
  | CompatibleFriends (count : nat).       (* "{count} compatible friends interested" *)

Module VenueRecommendation.
Record t : Type := mk {
  venue : Venue.t;
  score : R;
  reasons : list Reason;
  interested_users : list CompatibilityScore.t
}.
End VenueRecommendation.

(** ** Distance calculator *)

Definition calculate_distance (lat1 lon1 lat2 lon2 : R) : R :=
  let R := 6371 in
  let lat1_rad := radians lat1 in
  let lat2_rad := radians lat2 in
  let delta_lat := radians (lat2 - lat1) in
  let delta_lon := radians (lon2 - lon1) in
  let a := sin (delta_lat / 2) ^ 2
           + cos lat1_rad * cos lat2_rad * sin (delta_lon / 2) ^ 2 in
  let c := 2 * atan2 (sqrt a) (sqrt (1 - a)) in
  R * c.

(** ** Compatibility scorer *)

Definition price_ranges : gmap string Z :=
  {[ "budget" := 1%Z; "moderate" := 2%Z; "upscale" := 3%Z ]}.

Definition calculate_user_compatibility (user1 user2 : User.t)
    : result CompatibilityScore.t :=
  (* 1. Shared interests (40% weight) *)
  let shared_interests :=
    elements (py_set (User.interests user1) ∩ py_set (User.interests user2)) in
  interest_score ←
    py_truediv (length shared_interests)
      (Nat.max (length (User.interests user1)) (length (User.interests user2)));
  (* 2. Distance proximity (30% weight) *)
  let distance :=
    calculate_distance (User.latitude user1) (User.longitude user1)
                       (User.latitude user2) (User.longitude user2) in
  let distance_score := Rmax 0 (1 - distance / 5) in
  (* 3. Price range compatibility (30% weight) *)
  p1 ← dict_getitem price_ranges (User.preferred_price_range user1);
  p2 ← dict_getitem price_ranges (User.preferred_price_range user2);
  let price_diff := Z.abs (p1 - p2) in
  let price_score := Rmax 0 (1 - IZR price_diff / 2) in
  (* Combined score (0-100 scale) *)
  let final_score :=
    (0.4 * interest_score + 0.3 * distance_score + 0.3 * price_score) * 100 in
  Return {|
    CompatibilityScore.user_id := User.id user2;
    CompatibilityScore.user_name := User.name user2;
    CompatibilityScore.score := py_round final_score 2;
    CompatibilityScore.shared_interests := shared_interests;
    CompatibilityScore.distance_km := py_round distance 2
  |}.

(** ** Venue recommender *)

(** [for x in l: s = body x s], stopping at the first exception. *)
Fixpoint for_each {A S : Type} (l : list A) (body : A → S → result S) (s : S)
    : result S :=
  match l with
  | [] => Return s
  | x :: l' => s' ← body x s; for_each l' body s'
  end.

(** Body of the inner loop [for other_user in all_users], lines 101-118;
    the state is the list [interested_users]. *)
Definition interested_users_body (user : User.t) (venue : Venue.t)
    (other_user : User.t) (interested_users : list CompatibilityScore.t)
    : result (list CompatibilityScore.t) :=
  if decide (User.id other_user ≠ User.id user) then
    (* Check if they have interest in this venue *)
    let user_venue_interest := 0 in
    (* Factor 1: Viewing history *)
    let user_venue_interest :=
      match User.viewing_history other_user !! Venue.id venue with
      | Some seconds =>
          float_add user_venue_interest (float_truediv seconds 60)
      | None => user_venue_interest
      end in
    (* Factor 2: Interest overlap with venue *)
    let other_matching :=
      py_set (User.interests other_user) ∩ py_set (Venue.tags venue) in
    overlap ← py_truediv (size other_matching) (length (Venue.tags venue));
    let user_venue_interest := float_add user_venue_interest (binary64 overlap) in
    (* If user shows interest in this venue *)
    if Rgt_dec user_venue_interest (binary64 0.3) then
      compatibility ← calculate_user_compatibility user other_user;
      if Rgt_dec (CompatibilityScore.score compatibility) 40 then
        Return (interested_users ++ [compatibility])
      else Return interested_users
    else Return interested_users
  else Return interested_users.

(** Body of the outer loop [for venue in all_venues], lines 69-132; the state
    is the list [recommendations]. *)
Definition recommend_venues_body (user : User.t) (all_users : list User.t)
    (venue : Venue.t) (recommendations : list VenueRecommendation.t)
    : result (list VenueRecommendation.t) :=
  let score := 0 in
  let reasons := [] in
  (* 1. Distance score (25% weight) *)
  let distance :=
    calculate_distance (User.latitude user) (User.longitude user)
                       (Venue.latitude venue) (Venue.longitude venue) in
  let distance_score := Rmax 0 (1 - distance / 3) in
  let score := score + 25 * distance_score in
  let reasons :=
    if Rlt_dec distance 1 then reasons ++ [OnlyKmAway distance] else reasons in
  (* 2. Interest match (35% weight) *)
  let matching_tags := py_set (User.interests user) ∩ py_set (Venue.tags venue) in
  interest_score ←
    (if decide (User.interests user ≠ []) then
       py_truediv (size matching_tags) (length (User.interests user))
     else Return 0);
  let score := score + 35 * interest_score in
  let reasons :=
    if decide (matching_tags ≠ ∅) then reasons ++ [MatchesInterests matching_tags]
    else reasons in
  (* 3. Price range match (15% weight) *)
  let '(score, reasons) :=
    if decide (Venue.price_range venue = User.preferred_price_range user) then
      (score + 15, reasons ++ [FitsBudget (Venue.price_range venue)])
    else (score, reasons) in
  (* 4. Viewing history (25% weight) - implicit interest signal *)
  let '(score, reasons) :=
    match User.viewing_history user !! Venue.id venue with
    | Some view_time =>
        let view_score := Rmin 1 (view_time / 60) in
        (score + 25 * view_score, reasons ++ [SpentViewing view_time])
    | None => (score, reasons)
    end in
  (* Find compatible users interested in this venue *)
  interested_users ← for_each all_users (interested_users_body user venue) [];
  (* Sort by compatibility score *)
  let interested_users :=
    sort_reverse CompatibilityScore.score interested_users in
  let reasons :=
    if decide (interested_users ≠ []) then
      let top_matches := take 3 interested_users in
      reasons ++ [CompatibleFriends (length top_matches)]
    else reasons in
  Return (recommendations ++ [{|
    VenueRecommendation.venue := venue;
    VenueRecommendation.score := py_round score 2;
    VenueRecommendation.reasons := reasons;
    VenueRecommendation.interested_users := take 5 interested_users
  |}]).

Definition recommend_venues (user : User.t) (all_venues : list Venue.t)
    (all_users : list User.t) (top_n : Z) : result (list VenueRecommendation.t) :=
  recommendations ← for_each all_venues (recommend_venues_body user all_users) [];
  (* Sort by score and return top N *)
  let recommendations :=
    sort_reverse VenueRecommendation.score recommendations in
  Return (py_slice_to recommendations top_n).

(** ** People recommender *)

Definition recommend_people_body (user other_user : User.t)
    (compatibilities : list CompatibilityScore.t)
    : result (list CompatibilityScore.t) :=
  if decide (User.id other_user ≠ User.id user) then
    compatibility ← calculate_user_compatibility user other_user;
    Return (compatibilities ++ [compatibility])
  else Return compatibilities.

Definition recommend_people (user : User.t) (all_users : list User.t)
    (top_n : Z) : result (list CompatibilityScore.t) :=
  compatibilities ← for_each all_users (recommend_people_body user) [];
  (* Sort by compatibility score (highest first) *)
  let compatibilities :=
    sort_reverse CompatibilityScore.score compatibilities in
  Return (py_slice_to compatibilities top_n).

(** * Vocabulary of the specification *)

(** The record built on lines 44-52 once both price ordinals are known. *)
Definition compatibility_record (user1 user2 : User.t) (p1 p2 : Z)
    : CompatibilityScore.t :=
  let shared := py_set (User.interests user1) ∩ py_set (User.interests user2) in
  let interest_score :=
    INR (size shared)
    / INR (Nat.max (length (User.interests user1))
                   (length (User.interests user2))) in
  let distance :=
    calculate_distance (User.latitude user1) (User.longitude user1)
                       (User.latitude user2) (User.longitude user2) in
  let distance_score := Rmax 0 (1 - distance / 5) in
  let price_score := Rmax 0 (1 - IZR (Z.abs (p1 - p2)) / 2) in
  {| CompatibilityScore.user_id := User.id user2;
     CompatibilityScore.user_name := User.name user2;
     CompatibilityScore.score :=
       py_round ((0.4 * interest_score + 0.3 * distance_score
                  + 0.3 * price_score) * 100) 2;
     CompatibilityScore.shared_interests := elements shared;
     CompatibilityScore.distance_km := py_round distance 2 |}.

(** The three labels of the price tier. *)
Definition known_price_range (p : string) : Prop :=
  p = "budget" ∨ p = "moderate" ∨ p = "upscale".

(** The four weighted components, in the words of the specification. *)
Definition proximity_component (user : User.t) (venue : Venue.t) : R :=
  25 * Rmax 0 (1 - calculate_distance (User.latitude user) (User.longitude user)
                     (Venue.latitude venue) (Venue.longitude venue) / 3).

Definition interest_component (user : User.t) (venue : Venue.t) : R :=
  35 * (if decide (User.interests user = []) then 0
        else INR (size (py_set (User.interests user) ∩ py_set (Venue.tags venue)))
             / INR (length (User.interests user))).

Definition price_component (user : User.t) (venue : Venue.t) : R :=
  if decide (Venue.price_range venue = User.preferred_price_range user)
  then 15 else 0.

Definition implicit_interest_component (user : User.t) (venue : Venue.t) : R :=
  match User.viewing_history user !! Venue.id venue with
  | Some seconds_viewed => 25 * Rmin 1 (seconds_viewed / 60)
  | None => 0
  end.

Definition venue_score (user : User.t) (venue : Venue.t) : R :=
  py_round (proximity_component user venue + interest_component user venue
            + price_component user venue
            + implicit_interest_component user venue) 2.

(** The reasons that do not depend on the other users. *)
Definition own_reasons (user : User.t) (venue : Venue.t) : list Reason :=
  let distance :=
    calculate_distance (User.latitude user) (User.longitude user)
                       (Venue.latitude venue) (Venue.longitude venue) in
  let matching_tags := py_set (User.interests user) ∩ py_set (Venue.tags venue) in
  (if Rlt_dec distance 1 then [OnlyKmAway distance] else [])
  ++ (if decide (matching_tags ≠ ∅) then [MatchesInterests matching_tags] else [])
  ++ (if decide (Venue.price_range venue = User.preferred_price_range user)
      then [FitsBudget (Venue.price_range venue)] else [])
  ++ (match User.viewing_history user !! Venue.id venue with
      | Some view_time => [SpentViewing view_time]
      | None => []
      end).

(** The record appended on lines 127-132, given the list collected by the
    inner loop. *)
Definition venue_recommendation (user : User.t) (venue : Venue.t)
    (collected : list CompatibilityScore.t) : VenueRecommendation.t :=
  let interested_users := sort_reverse CompatibilityScore.score collected in
  {| VenueRecommendation.venue := venue;
     VenueRecommendation.score := venue_score user venue;
     VenueRecommendation.reasons :=
       own_reasons user venue
       ++ (if decide (interested_users ≠ [])
           then [CompatibleFriends (length (take 3 interested_users))] else []);
     VenueRecommendation.interested_users := take 5 interested_users |}.

(** What one iteration of the outer loop appends for [venue]. *)
Definition recommends (user : User.t) (all_users : list User.t)
    (venue : Venue.t) (r : VenueRecommendation.t) : Prop :=
  ∃ collected,
    for_each all_users (interested_users_body user venue) [] = Return collected
    ∧ r = venue_recommendation user venue collected.

(** The signal of [other_user]'s interest in [venue], as lines 104-112
    compute it: the viewing time in minutes, if any, plus the share of the
    venue's tags among the user's interests. *)
Definition interest_signal (venue : Venue.t) (other_user : User.t) : R :=
  float_add
    match User.viewing_history other_user !! Venue.id venue with
    | Some seconds => float_add 0 (float_truediv seconds 60)
    | None => 0
    end
    (binary64
       (INR (size (py_set (User.interests other_user) ∩ py_set (Venue.tags venue)))
        / INR (length (Venue.tags venue)))).

(** The literal [0.3] of line 115. *)
Definition interest_threshold : R := binary64 0.3.

(** The same signal without rounding. *)
Definition exact_interest_signal (venue : Venue.t) (other_user : User.t) : R :=
  match User.viewing_history other_user !! Venue.id venue with
  | Some seconds => seconds / 60
  | None => 0
  end
  + INR (size (py_set (User.interests other_user) ∩ py_set (Venue.tags venue)))
    / INR (length (Venue.tags venue)).

(** The compatibility scorer is reached for [other_user]. *)
Definition scored (user : User.t) (venue : Venue.t) (other_user : User.t)
    : Prop :=
  User.id other_user ≠ User.id user
  ∧ interest_signal venue other_user > interest_threshold.

(** The score retained for [other_user], if any (spec wording): the user is
    not the querying one, the interest signal exceeds 0.3, and the
    compatibility score exceeds 40. *)
Definition retained (user : User.t) (venue : Venue.t) (other_user : User.t)
    : option CompatibilityScore.t :=
  if decide (User.id other_user = User.id user) then None
  else if Rgt_dec (interest_signal venue other_user) interest_threshold then
    match calculate_user_compatibility user other_user with
    | Return compatibility =>
        if Rgt_dec (CompatibilityScore.score compatibility) 40
        then Some compatibility else None
    | Raise _ => None
    end
  else None.

(** Descending order: every element's key is at least the key of every
    later element. *)
Definition descending {A : Type} (key : A → R) (l : list A) : Prop :=
  StronglySorted (λ a b, key b <= key a) l.

(** * Sample data ([mock_data.py]) and edge-case inputs *)

Definition user1 : User.t :=
  {| User.id := "user1"; User.name := "Alex Chen";
     User.latitude := 40.7580; User.longitude := -73.9855;
     User.interests := ["coffee"; "art"; "music"; "indie"];
     User.preferred_price_range := "moderate";
     User.viewing_history :=
       {[ "venue1" := 45; "venue3" := 30; "venue5" := 60 ]} |}.

Definition user2 : User.t :=
  {| User.id := "user2"; User.name := "Sam Rivera";
     User.latitude := 40.7589; User.longitude := -73.9851;
     User.interests := ["coffee"; "books"; "quiet"; "study"];
     User.preferred_price_range := "budget";
     User.viewing_history := {[ "venue1" := 120; "venue2" := 90 ]} |}.

Definition venue1 : Venue.t :=
  {| Venue.id := "venue1"; Venue.name := "Brew & Pages Cafe";
     Venue.category := "cafe";
     Venue.latitude := 40.7585; Venue.longitude := -73.9850;
     Venue.price_range := "moderate";
     Venue.tags := ["coffee"; "books"; "wifi"; "quiet"; "art"];
     Venue.description := "Cozy cafe with art gallery and book exchange" |}.

Definition venue2 : Venue.t :=
  {| Venue.id := "venue2"; Venue.name := "Study Spot Coffee";
     Venue.category := "cafe";
     Venue.latitude := 40.7575; Venue.longitude := -73.9845;
     Venue.price_range := "budget";
     Venue.tags := ["coffee"; "study"; "wifi"; "quiet"];
     Venue.description := "Student-friendly cafe with long hours" |}.

(** A user who has not chosen any interest yet. *)
Definition newcomer (id : string) (price_range : string) : User.t :=
  {| User.id := id; User.name := "New User";
     User.latitude := 40.7580; User.longitude := -73.9855;
     User.interests := [];
     User.preferred_price_range := price_range;
     User.viewing_history := ∅ |}.

(** A user whose interest list repeats a tag. *)
Definition repeater : User.t :=
  {| User.id := "user9"; User.name := "Robin Diaz";
     User.latitude := 40.7580; User.longitude := -73.9855;
     User.interests := ["coffee"; "coffee"];
     User.preferred_price_range := "moderate";
     User.viewing_history := ∅ |}.

(** A venue registered without tags. *)
Definition tagless_venue : Venue.t :=
  {| Venue.id := "venue9"; Venue.name := "Pop-up";
     Venue.category := "bar";
     Venue.latitude := 40.7585; Venue.longitude := -73.9850;
     Venue.price_range := "moderate";
     Venue.tags := [];
     Venue.description := "Weekend stall without a listing" |}.

(** A user whose price label is outside the three tiers. *)
Definition big_spender : User.t :=
  {| User.id := "user6"; User.name := "Casey Wu";
     User.latitude := 40.7585; User.longitude := -73.9850;
     User.interests := ["wine"; "art"];
     User.preferred_price_range := "luxury";
     User.viewing_history := ∅ |}.

(** Four users who differ from [user1] in their id only: all four are
    retained for [venue1], the list keeps four, the reason counts three. *)
Definition twin (id : string) : User.t :=
  {| User.id := id; User.name := User.name user1;
     User.latitude := User.latitude user1;
     User.longitude := User.longitude user1;
     User.interests := User.interests user1;
     User.preferred_price_range := User.preferred_price_range user1;
     User.viewing_history := User.viewing_history user1 |}.

Definition twins : list User.t :=
  [twin "user11"; twin "user12"; twin "user13"; twin "user14"].

Definition twin_score (id : string) : CompatibilityScore.t :=
  {| CompatibilityScore.user_id := id;
     CompatibilityScore.user_name := User.name user1;
     CompatibilityScore.score := 100;
     CompatibilityScore.shared_interests := elements (py_set (User.interests user1));
     CompatibilityScore.distance_km := 0 |}.

(** A user at [user1]'s place, with the same budget and no interest in
    common, who looked at [venue1] for six seconds and has one of its five
    tags among the interests: the interest signal is [0 + 6/60 + 1/5]. *)
Definition passer_by : User.t :=
  {| User.id := "user10"; User.name := "Pat Moss";
     User.latitude := User.latitude user1;
     User.longitude := User.longitude user1;
     User.interests := ["wifi"];
     User.preferred_price_range := "moderate";
     User.viewing_history := {[ "venue1" := 6 ]} |}.

Definition passer_by_score : CompatibilityScore.t :=
  {| CompatibilityScore.user_id := "user10";
     CompatibilityScore.user_name := "Pat Moss";
     CompatibilityScore.score := 60;
     CompatibilityScore.shared_interests := [];
     CompatibilityScore.distance_km := 0 |}.

(** The remaining sample users and venues. *)
Definition user3 : User.t :=
  {| User.id := "user3"; User.name := "Jordan Kim";
     User.latitude := 40.7520; User.longitude := -73.9900;
     User.interests := ["music"; "cocktails"; "nightlife"; "dancing"];
     User.preferred_price_range := "upscale";
     User.viewing_history := {[ "venue4" := 80; "venue6" := 55 ]} |}.

Definition user4 : User.t :=
  {| User.id := "user4"; User.name := "Taylor Park";
     User.latitude := 40.7595; User.longitude := -73.9840;
     User.interests := ["art"; "coffee"; "photography"; "indie"];
     User.preferred_price_range := "moderate";
     User.viewing_history := {[ "venue1" := 35; "venue5" := 90 ]} |}.

Definition user5 : User.t :=
  {| User.id := "user5"; User.name := "Morgan Lee";
     User.latitude := 40.7560; User.longitude := -73.9870;
     User.interests := ["food"; "wine"; "culture"; "art"];
     User.preferred_price_range := "upscale";
     User.viewing_history := {[ "venue3" := 65; "venue5" := 40 ]} |}.

Definition venue3 : Venue.t :=
  {| Venue.id := "venue3"; Venue.name := "The Velvet Room";
     Venue.category := "bar";
     Venue.latitude := 40.7530; Venue.longitude := -73.9910;
     Venue.price_range := "upscale";
     Venue.tags := ["cocktails"; "music"; "nightlife"; "lounge"];
     Venue.description := "Upscale cocktail lounge with live jazz" |}.

Definition venue4 : Venue.t :=
  {| Venue.id := "venue4"; Venue.name := "Electric Pulse";
     Venue.category := "club";
     Venue.latitude := 40.7510; Venue.longitude := -73.9920;
     Venue.price_range := "upscale";
     Venue.tags := ["dancing"; "nightlife"; "music"; "DJ"];
     Venue.description := "High-energy nightclub with top DJs" |}.

Definition venue5 : Venue.t :=
  {| Venue.id := "venue5"; Venue.name := "Indie Corner Gallery";
     Venue.category := "gallery";
     Venue.latitude := 40.7590; Venue.longitude := -73.9860;
     Venue.price_range := "moderate";
     Venue.tags := ["art"; "indie"; "photography"; "events"];
     Venue.description := "Independent art gallery with monthly exhibitions" |}.

Definition venue6 : Venue.t :=
  {| Venue.id := "venue6"; Venue.name := "Midnight Groove";
     Venue.category := "club";
     Venue.latitude := 40.7515; Venue.longitude := -73.9905;
     Venue.price_range := "upscale";
     Venue.tags := ["dancing"; "music"; "nightlife"; "cocktails"];
     Venue.description := "Trendy club with mixed music and VIP sections" |}.

Module mock_data.
Definition USERS : list User.t := [user1; user2; user3; user4; user5].
Definition VENUES : list Venue.t :=
  [venue1; venue2; venue3; venue4; venue5; venue6].
End mock_data.

(** * Transport layer ([main.py]) *)

Module BookingRequest.
Record t : Type := mk {
  venue_id : string;
  user_ids : list string;
  date : string;
  time : string;
  party_size : Z
}.
End BookingRequest.

Module HTTPException.
Record t : Type := mk {
  status_code : Z;
  detail : string
}.
End HTTPException.

(** What a handler does with a request: it returns a body, raises an
    [HTTPException] itself, or lets an exception of the engine escape. *)
Inductive response (A : Type) : Type :=
  | Respond (body : A)
  | Reject (e : HTTPException.t)
  | Escape (e : PyError).
Arguments Respond {A} body.
Arguments Reject {A} e.
Arguments Escape {A} e.

#[global] Instance response_ret : MRet response := fun _ a => Respond a.

#[global] Instance response_bind : MBind response := fun _ _ k m =>
  match m with
  | Respond a => k a
  | Reject e => Reject e
  | Escape e => Escape e
  end.

(** A call into the engine made by a handler without [try]. *)
Definition uncaught {A : Type} (m : result A) : response A :=
  match m with
  | Return a => Respond a
  | Raise e => Escape e
  end.

Section main.
(** The module-level collections imported from [mock_data]. *)
Variable USERS : list User.t.
Variable VENUES : list Venue.t.

(** [next((u for u in USERS if u.id == user_id), None)]. *)
Definition next_user (user_id : string) : option User.t :=
  find (λ u, bool_decide (User.id u = user_id)) USERS.

(** [next((v for v in VENUES if v.id == venue_id), None)]. *)
Definition next_venue (venue_id : string) : option Venue.t :=
  find (λ v, bool_decide (Venue.id v = venue_id)) VENUES.

Definition get_user (user_id : string) : response User.t :=
  match next_user user_id with
  | None =>
      Reject (HTTPException.mk 404 ("User " +:+ user_id +:+ " not found"))
  | Some user => Respond user
  end.

Definition get_venue (venue_id : string) : response Venue.t :=
  match next_venue venue_id with
  | None =>
      Reject (HTTPException.mk 404 ("Venue " +:+ venue_id +:+ " not found"))
  | Some venue => Respond venue
  end.

Definition get_venue_recommendations (user_id : string) (top_n : Z)
    : response (list VenueRecommendation.t) :=
  let top_n := if (20 <? top_n)%Z then 20%Z else top_n in
  match next_user user_id with
  | None =>
      Reject (HTTPException.mk 404 ("User " +:+ user_id +:+ " not found"))
  | Some user => uncaught (recommend_venues user VENUES USERS top_n)
  end.

Definition get_people_recommendations (user_id : string) (top_n : Z)
    : response (list CompatibilityScore.t) :=
  match next_user user_id with
  | None =>
      Reject (HTTPException.mk 404 ("User " +:+ user_id +:+ " not found"))
  | Some user => uncaught (recommend_people user USERS top_n)
  end.

(** The loop [for user_id in request.user_ids] of [create_booking], lines
    172-174: the first id without a user ends the request. *)
Fixpoint verify_users (user_ids : list string) : response unit :=
  match user_ids with
  | [] => Respond ()
  | user_id :: user_ids' =>
      if negb (existsb (λ u, bool_decide (User.id u = user_id)) USERS) then
        Reject (HTTPException.mk 404 ("User " +:+ user_id +:+ " not found"))
      else verify_users user_ids'
  end.

(** [create_booking] up to the call of the booking agent, lines 166-181:
    the three validations; the body is the venue handed to the agent. *)
Definition create_booking_validation (request : BookingRequest.t)
    : response Venue.t :=
  (* Validate venue exists *)
  venue ←
    match next_venue (BookingRequest.venue_id request) with
    | None =>
        Reject (HTTPException.mk 404
                  ("Venue " +:+ BookingRequest.venue_id request +:+ " not found"))
    | Some venue => Respond venue
    end;
  (* Verify all users exist *)
  _ ← verify_users (BookingRequest.user_ids request);
  (* Validate party size matches users *)
  if bool_decide (BookingRequest.party_size request
                  ≠ Z.of_nat (length (BookingRequest.user_ids request)))
  then
    Reject (HTTPException.mk 400
              ("Party size (" +:+ pretty (BookingRequest.party_size request)
               +:+ ") doesn't match number of users ("
               +:+ pretty (length (BookingRequest.user_ids request))
               +:+ ")"))
  else Respond venue.

End main.

(** * Further vocabulary *)

(** The haversine term [a] of [calculate_distance], line 15. *)
Definition haversine (lat1 lon1 lat2 lon2 : R) : R :=
  sin (radians (lat2 - lat1) / 2) ^ 2
  + cos (radians lat1) * cos (radians lat2) * sin (radians (lon2 - lon1) / 2) ^ 2.

(** Some user of the collection has this id. *)
Definition user_exists (USERS : list User.t) (user_id : string) : Prop :=
  ∃ u, u ∈ USERS ∧ User.id u = user_id.

(** The users [recommend_people] scores: all but the querying one. *)
Definition others (user : User.t) (all_users : list User.t) : list User.t :=
  filter (λ other_user, User.id other_user ≠ User.id user) all_users.

(** Data on which the engine's arithmetic is defined: every venue has tags,
    every user has interests and one of the three price tiers. *)
Definition well_formed_user (u : User.t) : Prop :=
  User.interests u ≠ [] ∧ known_price_range (User.preferred_price_range u).

Definition well_formed_venue (v : Venue.t) : Prop := Venue.tags v ≠ [].

(** A number within the range of a float: [n / 60] does not overflow. *)
Definition fits_float (x : R) : Prop := Rabs x < powerRZ 2 1024.

Definition durations_fit_float (u : User.t) : Prop :=
  map_Forall (λ _ seconds, fits_float seconds) (User.viewing_history u).

(** Two points given in degrees, within the ranges of latitude and
    longitude, and less than 20 000 km apart: the haversine term is below 1
    by more than rounding error, so line 16 takes the square root of a
    positive number. *)
Definition clear_of_antipodes (lat1 lon1 lat2 lon2 : R) : Prop :=
  (-90 <= lat1 <= 90 ∧ -180 <= lon1 <= 180)
  ∧ (-90 <= lat2 <= 90 ∧ -180 <= lon2 <= 180)
  ∧ calculate_distance lat1 lon1 lat2 lon2 <= 20000.

Definition users_clear (user1 user2 : User.t) : Prop :=
  clear_of_antipodes (User.latitude user1) (User.longitude user1)
                     (User.latitude user2) (User.longitude user2).

Definition venue_clear (user : User.t) (venue : Venue.t) : Prop :=
  clear_of_antipodes (User.latitude user) (User.longitude user)
                     (Venue.latitude venue) (Venue.longitude venue).

(** * Properties *)

(** ** Rounding *)

Section Rounding.

Lemma Int_part_bounds (x : R) : IZR (Int_part x) <= x < IZR (Int_part x) + 1.
Proof. destruct (base_Int_part x). lra. Qed.

Lemma round_half_even_cases (x : R) :
  round_half_even x = Int_part x ∨ round_half_even x = (Int_part x + 1)%Z.
Proof.
  unfold round_half_even.
  repeat match goal with |- context [if ?c then _ else _] => destruct c end;
    auto.
Qed.

Lemma round_half_even_ge (k : Z) (x : R) :
  IZR k <= x → (k <= round_half_even x)%Z.
Proof.
  intros Hk. pose proof (Int_part_bounds x) as [_ Hup].
  assert (k < Int_part x + 1)%Z.
  { apply lt_IZR. rewrite plus_IZR. lra. }
  destruct (round_half_even_cases x) as [-> | ->]; lia.
Qed.

Lemma round_half_even_IZR (k : Z) : round_half_even (IZR k) = k.
Proof.
  unfold round_half_even, frac_part.
  assert (Int_part (IZR k) = k) as ->.
  { pose proof (Int_part_bounds (IZR k)) as [Hlo Hup].
    apply le_IZR in Hlo.
    assert (k < Int_part (IZR k) + 1)%Z by (apply lt_IZR; rewrite plus_IZR; lra).
    lia. }
  destruct (Rlt_dec _ _) as [|Hn]; [done|]. exfalso; apply Hn. lra.
Qed.

Lemma round_half_even_le (k : Z) (x : R) :
  x <= IZR k → (round_half_even x <= k)%Z.
Proof.
  intros [Hlt | ->]; [|by rewrite round_half_even_IZR].
  pose proof (Int_part_bounds x) as [Hlo _].
  assert (Int_part x < k)%Z by (apply lt_IZR; lra).
  destruct (round_half_even_cases x) as [-> | ->]; lia.
Qed.

Lemma round_half_even_nearest (k : Z) (y : R) :
  IZR k - 1 / 2 < y < IZR k + 1 / 2 → round_half_even y = k.
Proof.
  intros [Hlo Hhi]. unfold round_half_even, frac_part.
  pose proof (Int_part_bounds y) as [Hn0 Hn1].
  assert (Int_part y = k ∨ Int_part y = (k - 1)%Z) as [Hn | Hn].
  { assert (k - 2 < Int_part y)%Z.
    { apply lt_IZR. rewrite minus_IZR. lra. }
    assert (Int_part y < k + 1)%Z.
    { apply lt_IZR. rewrite plus_IZR. lra. }
    lia. }
  - rewrite Hn in *. destruct (Rlt_dec (y - IZR k) (1 / 2)); [done|lra].
  - rewrite Hn in *. rewrite minus_IZR in *.
    destruct (Rlt_dec (y - (IZR k - 1)) (1 / 2)); [lra|].
    destruct (Rlt_dec (1 / 2) (y - (IZR k - 1))); [lia|lra].
Qed.

(** A tie goes to the even neighbour. *)
Lemma round_half_even_tie (k : Z) :
  round_half_even (IZR k + 1 / 2) = if Z.even k then k else (k + 1)%Z.
Proof.
  unfold round_half_even, frac_part.
  assert (Int_part (IZR k + 1 / 2) = k) as ->.
  { symmetry. apply Int_part_spec. lra. }
  destruct (Rlt_dec _ _); [lra|]. destruct (Rlt_dec _ _); [lra|]. done.
Qed.

(** Rounding to two decimals keeps a value between two bounds that are
    themselves multiples of 0.01. *)
Lemma py_round_2_between (lo hi : Z) (x : R) :
  IZR lo / 100 <= x <= IZR hi / 100 →
  IZR lo / 100 <= py_round x 2 <= IZR hi / 100.
Proof.
  intros [Hlo Hhi]. unfold py_round.
  replace (10 ^ 2) with 100 by (simpl; lra).
  assert (lo <= round_half_even (x * 100))%Z as H1
    by (apply round_half_even_ge; lra).
  assert (round_half_even (x * 100) <= hi)%Z as H2
    by (apply round_half_even_le; lra).
  apply IZR_le in H1, H2. lra.
Qed.

Lemma py_round_2_exact (k : Z) : py_round (IZR k / 100) 2 = IZR k / 100.
Proof.
  pose proof (py_round_2_between k k (IZR k / 100)). lra.
Qed.

Lemma py_round_2_unit_interval (x : R) :
  0 <= x <= 100 → 0 <= py_round x 2 <= 100.
Proof.
  intros Hx. pose proof (py_round_2_between 0 10000 x). lra.
Qed.

End Rounding.

(** ** Binary64 rounding *)

Section Binary64.

Lemma ln_2_pos : 0 < ln 2.
Proof. rewrite <- ln_1. apply ln_increasing; lra. Qed.

Lemma ln_powerRZ_2 (e : Z) : ln (powerRZ 2 e) = IZR e * ln 2.
Proof. rewrite powerRZ_Rpower by lra. unfold Rpower. apply ln_exp. Qed.

Lemma binade_unique (x : R) (e : Z) :
  powerRZ 2 e <= Rabs x < powerRZ 2 (e + 1) → binade x = e.
Proof.
  intros [Hlo Hhi]. unfold binade. symmetry. apply Int_part_spec.
  pose proof ln_2_pos as H2.
  assert (0 < powerRZ 2 e) as Hp by (apply powerRZ_lt; lra).
  assert (IZR e * ln 2 <= ln (Rabs x)) as H1.
  { rewrite <- ln_powerRZ_2. destruct Hlo as [Hlo | ->]; [|lra].
    left. by apply ln_increasing. }
  assert (ln (Rabs x) < (IZR e + 1) * ln 2) as H3.
  { rewrite <- plus_IZR, <- ln_powerRZ_2. apply ln_increasing; lra. }
  split.
  - apply (Rmult_lt_reg_r (ln 2)); [done|].
    unfold Rdiv. rewrite Rmult_minus_distr_r, Rmult_assoc, Rinv_l by lra. lra.
  - apply (Rmult_le_reg_r (ln 2)); [done|].
    unfold Rdiv. rewrite Rmult_assoc, Rinv_l by lra. lra.
Qed.

Lemma binade_spec (x : R) :
  x ≠ 0 → powerRZ 2 (binade x) <= Rabs x < powerRZ 2 (binade x + 1).
Proof.
  intros Hx. pose proof ln_2_pos as H2.
  assert (0 < Rabs x) as Hpos by (by apply Rabs_pos_lt).
  pose proof (Int_part_bounds (ln (Rabs x) / ln 2)) as [Hlo Hhi].
  fold (binade x) in Hlo, Hhi.
  assert (IZR (binade x) * ln 2 <= ln (Rabs x)) as H1.
  { apply (Rmult_le_compat_r (ln 2)) in Hlo; [|lra].
    unfold Rdiv in Hlo. rewrite Rmult_assoc, Rinv_l in Hlo by lra. lra. }
  assert (ln (Rabs x) < (IZR (binade x) + 1) * ln 2) as H3.
  { apply (Rmult_lt_compat_r (ln 2)) in Hhi; [|lra].
    unfold Rdiv in Hhi. rewrite Rmult_assoc, Rinv_l in Hhi by lra. lra. }
  rewrite <- (exp_ln (Rabs x)) by done.
  rewrite !powerRZ_Rpower by lra. unfold Rpower. rewrite plus_IZR. split.
  - destruct H1 as [H1 | H1];
      [left; by apply exp_increasing | right; by rewrite H1].
  - by apply exp_increasing.
Qed.

(** Within a known binade, rounding is rounding of the scaled significand. *)
Lemma binary64_binade (x : R) (e : Z) :
  powerRZ 2 e <= Rabs x < powerRZ 2 (e + 1) →
  binary64 x
  = IZR (round_half_even (x * powerRZ 2 (52 - e))) * powerRZ 2 (e - 52).
Proof.
  intros H. unfold binary64.
  assert (0 < powerRZ 2 e) by (apply powerRZ_lt; lra).
  destruct (Req_dec_T x 0) as [-> | _].
  - rewrite Rabs_R0 in H. lra.
  - by rewrite (binade_unique x e H).
Qed.

Lemma binary64_nearest (x : R) (e k : Z) :
  powerRZ 2 e <= Rabs x < powerRZ 2 (e + 1) →
  IZR k - 1 / 2 < x * powerRZ 2 (52 - e) < IZR k + 1 / 2 →
  binary64 x = IZR k * powerRZ 2 (e - 52).
Proof.
  intros He Hk. rewrite (binary64_binade x e He).
  by rewrite (round_half_even_nearest k).
Qed.

Lemma binary64_0 : binary64 0 = 0.
Proof. unfold binary64. by destruct (Req_dec_T 0 0). Qed.

Lemma float_add_0_0 : float_add 0 0 = 0.
Proof. unfold float_add. rewrite Rplus_0_l. apply binary64_0. Qed.

(** Rounding does not cross a power of two. *)
Lemma binary64_ge_pow2 (x : R) (e : Z) :
  powerRZ 2 e <= x → powerRZ 2 e <= binary64 x.
Proof.
  intros Hx.
  assert (0 < powerRZ 2 e) as Hp by (apply powerRZ_lt; lra).
  assert (x ≠ 0) as Hx0 by lra.
  pose proof (binade_spec x Hx0) as [Hlo Hhi].
  rewrite Rabs_pos_eq in Hlo, Hhi by lra.
  rewrite (binary64_binade x (binade x)) by (rewrite Rabs_pos_eq by lra; done).
  assert (e <= binade x)%Z as He.
  { destruct (Z_le_gt_dec e (binade x)) as [|Hgt]; [done|]. exfalso.
    assert (powerRZ 2 (binade x + 1) <= powerRZ 2 e); [|lra].
    rewrite !powerRZ_Rpower by lra. apply Rle_Rpower; [lra|].
    apply IZR_le. lia. }
  assert (0 < powerRZ 2 (52 - binade x)) as Hs by (apply powerRZ_lt; lra).
  assert (powerRZ 2 (binade x) * powerRZ 2 (52 - binade x) = IZR (2 ^ 52)) as Hm.
  { rewrite <- powerRZ_add by lra.
    replace (binade x + (52 - binade x))%Z with 52%Z by lia. simpl. lra. }
  assert (2 ^ 52 <= round_half_even (x * powerRZ 2 (52 - binade x)))%Z as Hk.
  { apply round_half_even_ge. rewrite <- Hm.
    apply Rmult_le_compat_r; lra. }
  apply IZR_le in Hk.
  assert (0 < powerRZ 2 (binade x - 52)) as Hs' by (apply powerRZ_lt; lra).
  apply Rle_trans with (powerRZ 2 (binade x)).
  - rewrite !powerRZ_Rpower by lra. apply Rle_Rpower; [lra|]. by apply IZR_le.
  - replace (powerRZ 2 (binade x))
      with (IZR (2 ^ 52) * powerRZ 2 (binade x - 52)).
    + apply Rmult_le_compat_r; lra.
    + replace (IZR (2 ^ 52)) with (powerRZ 2 52) by (simpl; lra).
      rewrite <- powerRZ_add by lra. f_equal. lia.
Qed.

Lemma binary64_nonneg (x : R) : 0 <= x → 0 <= binary64 x.
Proof.
  intros [Hx | <-]; [|rewrite binary64_0; lra].
  pose proof (binade_spec x) as [Hlo _]; [lra|].
  rewrite Rabs_pos_eq in Hlo by lra.
  pose proof (binary64_ge_pow2 x (binade x) Hlo).
  assert (0 < powerRZ 2 (binade x)) by (apply powerRZ_lt; lra). lra.
Qed.

(** The literal [0.3] is the float [0x1.3333333333333p-2], a little below
    three tenths. *)
Lemma binary64_three_tenths :
  binary64 0.3 = 5404319552844595 * powerRZ 2 (-54).
Proof.
  apply (binary64_nearest _ (-2)).
  - rewrite Rabs_pos_eq by lra. simpl. lra.
  - simpl. lra.
Qed.

Lemma interest_threshold_bounds : 0.29 < interest_threshold < 0.3.
Proof.
  unfold interest_threshold. rewrite binary64_three_tenths. simpl. lra.
Qed.

(** [6 / 60] and [1 / 5] are [0x1.999999999999ap-4] and
    [0x1.999999999999ap-3]; their sum lies halfway between two floats and
    is rounded up to the even one, [0x1.3333333333334p-2]. *)
Lemma binary64_tenth :
  binary64 (6 / 60) = 7205759403792794 * powerRZ 2 (-56).
Proof.
  apply (binary64_nearest _ (-4)).
  - rewrite Rabs_pos_eq by lra. simpl. lra.
  - simpl. lra.
Qed.

Lemma binary64_fifth :
  binary64 (1 / 5) = 7205759403792794 * powerRZ 2 (-55).
Proof.
  apply (binary64_nearest _ (-3)).
  - rewrite Rabs_pos_eq by lra. simpl. lra.
  - simpl. lra.
Qed.

Lemma six_seconds_one_of_five :
  float_add (float_add 0 (float_truediv 6 60)) (binary64 (1 / 5))
  = 5404319552844596 * powerRZ 2 (-54).
Proof.
  unfold float_add, float_truediv.
  rewrite binary64_tenth, binary64_fifth, Rplus_0_l.
  rewrite (binary64_nearest (7205759403792794 * powerRZ 2 (-56)) (-4)
             7205759403792794).
  2:{ rewrite Rabs_pos_eq by (simpl; lra). simpl. lra. }
  2:{ simpl. lra. }
  rewrite (binary64_binade _ (-2)).
  2:{ rewrite Rabs_pos_eq by (simpl; lra). simpl. lra. }
  match goal with |- context [round_half_even ?y] =>
    replace y with (5404319552844595 + 1 / 2) by (simpl; lra)
  end.
  rewrite round_half_even_tie. reflexivity.
Qed.

End Binary64.

(** ** Distance calculator *)

Section Distance.

Lemma radians_0 : radians 0 = 0.
Proof. unfold radians. lra. Qed.

Lemma radians_opp (x : R) : radians (- x) = - radians x.
Proof. unfold radians. lra. Qed.

Lemma sin_half_sqr_opp (x : R) : sin (- x / 2) ^ 2 = sin (x / 2) ^ 2.
Proof.
  replace (- x / 2) with (- (x / 2)) by lra.
  rewrite sin_neg. ring.
Qed.

Lemma atan2_nonneg (y x : R) : 0 <= y → 0 <= x → 0 <= atan2 y x.
Proof.
  intros Hy Hx. unfold atan2. pose proof PI_RGT_0.
  destruct (Rlt_dec 0 x) as [Hpos|_].
  - rewrite <- atan_0.
    destruct (Req_dec y 0) as [-> | Hne].
    + replace (0 / x) with 0 by (field; lra). lra.
    + left. apply atan_increasing. apply Rdiv_lt_0_compat; lra.
  - destruct (Rlt_dec x 0); [lra|].
    destruct (Rlt_dec 0 y); [lra|].
    destruct (Rlt_dec y 0); lra.
Qed.

Lemma atan2_0_1 : atan2 0 1 = 0.
Proof.
  unfold atan2. destruct (Rlt_dec 0 1); [|lra].
  replace (0 / 1) with 0 by lra. apply atan_0.
Qed.

Lemma calculate_distance_nonneg (lat1 lon1 lat2 lon2 : R) :
  0 <= calculate_distance lat1 lon1 lat2 lon2.
Proof.
  unfold calculate_distance. cbv zeta.
  match goal with |- context [atan2 ?y ?x] =>
    pose proof (atan2_nonneg y x (sqrt_pos _) (sqrt_pos _)) end.
  lra.
Qed.

Lemma calculate_distance_sym (lat1 lon1 lat2 lon2 : R) :
  calculate_distance lat1 lon1 lat2 lon2 =
  calculate_distance lat2 lon2 lat1 lon1.
Proof.
  unfold calculate_distance. cbv zeta.
  replace (lat1 - lat2) with (- (lat2 - lat1)) by lra.
  replace (lon1 - lon2) with (- (lon2 - lon1)) by lra.
  rewrite !radians_opp, !sin_half_sqr_opp.
  rewrite (Rmult_comm (cos (radians lat2)) (cos (radians lat1))).
  reflexivity.
Qed.

Lemma calculate_distance_refl (lat lon : R) :
  calculate_distance lat lon lat lon = 0.
Proof.
  unfold calculate_distance. cbv zeta.
  replace (lat - lat) with 0 by lra. replace (lon - lon) with 0 by lra.
  rewrite radians_0. replace (0 / 2) with 0 by lra. rewrite sin_0.
  replace (0 ^ 2 + cos (radians lat) * cos (radians lat) * 0 ^ 2) with 0
    by ring.
  rewrite sqrt_0, Rminus_0_r, sqrt_1, atan2_0_1. lra.
Qed.

End Distance.

(** ** Sets of tags and the error monad *)

Section Helpers.

Lemma size_py_set_le (l : list string) : size (py_set l) ≤ length l.
Proof.
  unfold py_set. induction l as [|x l IH]; simpl.
  - done.
  - rewrite size_union_alt, size_singleton.
    assert (size (list_to_set l ∖ {[x]} : gset string)
            ≤ size (list_to_set l : gset string))
      by (apply subseteq_size; set_solver).
    lia.
Qed.

Lemma size_py_set_NoDup (l : list string) :
  NoDup l → size (py_set l) = length l.
Proof. apply size_list_to_set. Qed.

Lemma size_inter_le_l (l1 l2 : list string) :
  size (py_set l1 ∩ py_set l2) ≤ length l1.
Proof.
  etrans; [|apply size_py_set_le]. apply subseteq_size.
  apply intersection_subseteq_l.
Qed.

Lemma bind_Return {A B : Type} (a : A) (k : A → result B) :
  Return a ≫= k = k a.
Proof. done. Qed.

Lemma bind_Raise {A B : Type} (e : PyError) (k : A → result B) :
  Raise e ≫= k = Raise e.
Proof. done. Qed.

Lemma py_truediv_Return (a b : nat) :
  b ≠ 0%nat → py_truediv a b = Return (INR a / INR b).
Proof. by destruct b. Qed.

Lemma py_truediv_inv (a b : nat) (q : R) :
  py_truediv a b = Return q → b ≠ 0%nat ∧ q = INR a / INR b.
Proof. destruct b; simpl; [done|]. intros [= <-]. done. Qed.

Lemma ratio_unit_interval (a b : nat) :
  a ≤ b → b ≠ 0%nat → 0 <= INR a / INR b <= 1.
Proof.
  intros Hab Hb.
  assert (0 < INR b) by (apply lt_0_INR; lia).
  assert (0 <= INR a) by apply pos_INR.
  assert (INR a <= INR b) by (by apply le_INR).
  split.
  - apply Rmult_le_pos; [done|]. left. by apply Rinv_0_lt_compat.
  - apply (Rmult_le_reg_r (INR b)); [done|].
    unfold Rdiv. rewrite Rmult_assoc, Rinv_l; lra.
Qed.

Lemma price_ranges_budget : price_ranges !! "budget" = Some 1%Z.
Proof. reflexivity. Qed.

Lemma price_ranges_moderate : price_ranges !! "moderate" = Some 2%Z.
Proof. reflexivity. Qed.

Lemma price_ranges_upscale : price_ranges !! "upscale" = Some 3%Z.
Proof. reflexivity. Qed.

Lemma price_ranges_lookup_Some (p : string) (n : Z) :
  price_ranges !! p = Some n →
  (p = "budget" ∧ n = 1%Z) ∨ (p = "moderate" ∧ n = 2%Z)
  ∨ (p = "upscale" ∧ n = 3%Z).
Proof.
  unfold price_ranges. intros H.
  repeat (apply lookup_insert_Some in H as [[<- <-] | [_ H]]; [by auto|]).
  apply lookup_singleton_Some in H as [<- <-]. auto.
Qed.

End Helpers.

(** ** Compatibility scorer *)

Section Compatibility.

Lemma calculate_user_compatibility_Return (user1 user2 : User.t) (p1 p2 : Z) :
  User.interests user1 ≠ [] ∨ User.interests user2 ≠ [] →
  price_ranges !! User.preferred_price_range user1 = Some p1 →
  price_ranges !! User.preferred_price_range user2 = Some p2 →
  calculate_user_compatibility user1 user2
  = Return (compatibility_record user1 user2 p1 p2).
Proof.
  intros Hne H1 H2. unfold calculate_user_compatibility.
  rewrite py_truediv_Return.
  - unfold dict_getitem. rewrite H1, H2. reflexivity.
  - destruct (User.interests user1), (User.interests user2);
      simpl; naive_solver.
Qed.

Lemma calculate_user_compatibility_inv (user1 user2 : User.t)
    (c : CompatibilityScore.t) :
  calculate_user_compatibility user1 user2 = Return c →
  ∃ p1 p2,
    (User.interests user1 ≠ [] ∨ User.interests user2 ≠ [])
    ∧ price_ranges !! User.preferred_price_range user1 = Some p1
    ∧ price_ranges !! User.preferred_price_range user2 = Some p2
    ∧ c = compatibility_record user1 user2 p1 p2.
Proof.
  unfold calculate_user_compatibility, dict_getitem.
  destruct (py_truediv _ _) as [q|] eqn:Hq; [|done].
  apply py_truediv_inv in Hq as [Hmax ->].
  destruct (price_ranges !! User.preferred_price_range user1) as [p1|] eqn:H1;
    [|done].
  destruct (price_ranges !! User.preferred_price_range user2) as [p2|] eqn:H2;
    [|done].
  intros [= <-]. exists p1, p2. split_and!; try done.
  destruct (User.interests user1); [|by left].
  destruct (User.interests user2); [done|by right].
Qed.

(** Both interest lists empty: the division on line 32 has divisor 0. *)
Lemma calculate_user_compatibility_empty (user1 user2 : User.t) :
  User.interests user1 = [] → User.interests user2 = [] →
  calculate_user_compatibility user1 user2 = Raise ZeroDivisionError.
Proof.
  intros H1 H2. unfold calculate_user_compatibility. by rewrite H1, H2.
Qed.

Lemma Rmax_0_unit (x : R) : 0 <= x → 0 <= Rmax 0 (1 - x) <= 1.
Proof.
  intros Hx. unfold Rmax. destruct (Rle_dec 0 (1 - x)); lra.
Qed.

Lemma compatibility_record_score (user1 user2 : User.t) (p1 p2 : Z) :
  User.interests user1 ≠ [] ∨ User.interests user2 ≠ [] →
  0 <= CompatibilityScore.score (compatibility_record user1 user2 p1 p2) <= 100.
Proof.
  intros Hne. unfold compatibility_record. cbv zeta. simpl.
  apply py_round_2_unit_interval.
  match goal with |- context [0.4 * ?i + 0.3 * Rmax 0 (1 - ?d) + 0.3 * Rmax 0 (1 - ?p)] =>
    assert (0 <= i <= 1) as Hi; [|assert (0 <= d) as Hd; [|assert (0 <= p) as Hp]]
  end.
  - apply ratio_unit_interval.
    + etrans; [apply size_inter_le_l|]. lia.
    + destruct (User.interests user1), (User.interests user2);
        simpl; naive_solver.
  - pose proof (calculate_distance_nonneg (User.latitude user1)
      (User.longitude user1) (User.latitude user2) (User.longitude user2)).
    lra.
  - assert (0 <= IZR (Z.abs (p1 - p2))) by (apply IZR_le; lia). lra.
  - apply Rmax_0_unit in Hd, Hp. lra.
Qed.

End Compatibility.

(** ** Venue recommender: the per-venue record *)

Section VenueScore.

Lemma recommend_venues_body_unfold (user : User.t) (all_users : list User.t)
    (venue : Venue.t) (recommendations : list VenueRecommendation.t) :
  recommend_venues_body user all_users venue recommendations
  = (collected ← for_each all_users (interested_users_body user venue) [];
     Return (recommendations ++ [venue_recommendation user venue collected])).
Proof.
  unfold recommend_venues_body, venue_recommendation, venue_score, own_reasons,
    proximity_component, interest_component, price_component,
    implicit_interest_component.
  cbv zeta.
  set (d := calculate_distance _ _ _ _).
  set (mt := py_set _ ∩ py_set _).
  assert (∀ x y : R, x = y → py_round x 2 = py_round y 2) as Hround
    by (by intros ?? ->).
  destruct (decide (User.interests user ≠ [])) as [Hi|Hi];
    destruct (decide (User.interests user = [])) as [Hi'|Hi']; try done;
    [rewrite py_truediv_Return by (by destruct (User.interests user))|];
    simpl;
    destruct (decide (Venue.price_range venue = User.preferred_price_range user));
    destruct (User.viewing_history user !! Venue.id venue);
    destruct (for_each all_users _ []) as [collected|]; simpl; try done;
    destruct (Rlt_dec d 1); destruct (decide (mt ≠ ∅));
    destruct (decide (sort_reverse CompatibilityScore.score collected ≠ []));
    simpl; do 3 f_equal; f_equal; apply Hround; lra.
Qed.

End VenueScore.

(** ** Loops and sorting *)

Section Loops.
Context {A B : Type}.

(** A loop whose body appends exactly one element per iteration. *)
Lemma for_each_append_one (Q : A → B → Prop) (body : A → list B → result (list B))
    (l : list A) :
  (∀ x s s', body x s = Return s' → ∃ y, s' = s ++ [y] ∧ Q x y) →
  ∀ s s', for_each l body s = Return s' →
    ∃ ys, s' = s ++ ys ∧ Forall2 Q l ys.
Proof.
  intros Hbody. induction l as [|x l IH]; intros s s'; simpl.
  - intros [= <-]. exists []. by rewrite app_nil_r.
  - destruct (body x s) as [s1|] eqn:Hx; simpl; [|done].
    intros Hrest. apply Hbody in Hx as (y & -> & Hy).
    apply IH in Hrest as (ys & -> & Hys).
    exists (y :: ys). split; [by rewrite <- app_assoc|by constructor].
Qed.

End Loops.

Section Sorting.
Context {A : Type} (key : A → R).

Lemma insert_desc_Permutation (x : A) (l : list A) :
  insert_desc key x l ≡ₚ x :: l.
Proof.
  induction l as [|y l IH]; simpl; [done|].
  destruct (Rlt_dec (key x) (key y)); [|done].
  rewrite IH. apply Permutation_swap.
Qed.

Lemma sort_reverse_Permutation (l : list A) : sort_reverse key l ≡ₚ l.
Proof.
  induction l as [|x l IH]; simpl; [done|].
  by rewrite insert_desc_Permutation, IH.
Qed.

Lemma sort_reverse_length (l : list A) : length (sort_reverse key l) = length l.
Proof. apply Permutation_length, sort_reverse_Permutation. Qed.

Lemma sort_reverse_nil_iff (l : list A) : sort_reverse key l = [] ↔ l = [].
Proof.
  split; [|by intros ->].
  intros H. apply length_zero_iff_nil.
  by rewrite <- sort_reverse_length, H.
Qed.

Lemma insert_desc_descending (x : A) (l : list A) :
  descending key l → descending key (insert_desc key x l).
Proof.
  unfold descending. induction 1 as [|y l Hl IH Hy]; simpl.
  - by repeat constructor.
  - destruct (Rlt_dec (key x) (key y)) as [Hlt|Hge].
    + constructor; [done|].
      rewrite insert_desc_Permutation. constructor; [lra|done].
    + constructor; [by constructor|].
      constructor; [lra|].
      eapply Forall_impl; [exact Hy|]. simpl. intros z Hz. lra.
Qed.

Lemma sort_reverse_descending (l : list A) :
  descending key (sort_reverse key l).
Proof.
  induction l as [|x l IH]; simpl.
  - constructor.
  - by apply insert_desc_descending.
Qed.

End Sorting.

Lemma py_slice_to_nonneg {A : Type} (l : list A) (n : Z) :
  (0 <= n)%Z → py_slice_to l n = take (Z.to_nat n) l.
Proof.
  intros Hn. unfold py_slice_to.
  destruct (n <? 0)%Z eqn:E; [lia|done].
Qed.

Lemma py_slice_to_submseteq {A : Type} (l : list A) (n : Z) :
  py_slice_to l n ⊆+ l.
Proof.
  unfold py_slice_to. destruct (n <? 0)%Z; apply sublist_submseteq, sublist_take.
Qed.

(** ** Venue recommender: the two loops *)

Section Recommender.

Lemma recommend_venues_body_inv (user : User.t) (all_users : list User.t)
    (venue : Venue.t) (s s' : list VenueRecommendation.t) :
  recommend_venues_body user all_users venue s = Return s' →
  ∃ r, s' = s ++ [r] ∧ recommends user all_users venue r.
Proof.
  rewrite recommend_venues_body_unfold.
  destruct (for_each all_users _ []) as [collected|] eqn:E; simpl; [|done].
  intros [= <-]. eexists. split; [done|]. by exists collected.
Qed.

Lemma recommend_venues_loop_inv (user : User.t) (all_venues : list Venue.t)
    (all_users : list User.t) (recommendations : list VenueRecommendation.t) :
  for_each all_venues (recommend_venues_body user all_users) []
    = Return recommendations →
  Forall2 (recommends user all_users) all_venues recommendations.
Proof.
  intros H.
  apply (for_each_append_one (recommends user all_users)) in H as (ys & -> & Hys).
  - done.
  - intros x s s'. apply recommend_venues_body_inv.
Qed.

Lemma recommend_venues_inv (user : User.t) (all_venues : list Venue.t)
    (all_users : list User.t) (top_n : Z) (result : list VenueRecommendation.t) :
  recommend_venues user all_venues all_users top_n = Return result →
  ∃ recommendations,
    for_each all_venues (recommend_venues_body user all_users) []
      = Return recommendations
    ∧ Forall2 (recommends user all_users) all_venues recommendations
    ∧ result
      = py_slice_to (sort_reverse VenueRecommendation.score recommendations) top_n.
Proof.
  unfold recommend_venues.
  destruct (for_each all_venues _ []) as [recs|] eqn:E; simpl; [|done].
  intros [= <-]. exists recs. split_and!; try done.
  by apply recommend_venues_loop_inv.
Qed.

(** Every returned recommendation is the record of one of the venues. *)
Lemma recommend_venues_elem_of (user : User.t) (all_venues : list Venue.t)
    (all_users : list User.t) (top_n : Z) (result : list VenueRecommendation.t)
    (r : VenueRecommendation.t) :
  recommend_venues user all_venues all_users top_n = Return result →
  r ∈ result →
  ∃ venue, venue ∈ all_venues ∧ recommends user all_users venue r.
Proof.
  intros H Hr. apply recommend_venues_inv in H as (recs & _ & Hall & ->).
  assert (r ∈ recs) as Hin.
  { rewrite <- (sort_reverse_Permutation VenueRecommendation.score recs).
    eapply elem_of_submseteq; [exact Hr|]. apply py_slice_to_submseteq. }
  apply list_elem_of_lookup in Hin as [i Hi].
  destruct (Forall2_lookup_r _ _ _ _ _ Hall Hi) as (venue & Hv & Hrec).
  exists venue. split; [|done]. by eapply list_elem_of_lookup_2.
Qed.

Lemma interested_users_body_tagged (user : User.t) (venue : Venue.t)
    (other_user : User.t) (interested_users : list CompatibilityScore.t) :
  Venue.tags venue ≠ [] →
  interested_users_body user venue other_user interested_users
  = if decide (User.id other_user = User.id user) then Return interested_users
    else if Rgt_dec (interest_signal venue other_user) interest_threshold then
      compatibility ← calculate_user_compatibility user other_user;
      Return (if Rgt_dec (CompatibilityScore.score compatibility) 40
              then interested_users ++ [compatibility] else interested_users)
    else Return interested_users.
Proof.
  intros Htags. unfold interested_users_body.
  destruct (decide (User.id other_user ≠ User.id user)) as [Hne|Heq];
    destruct (decide (User.id other_user = User.id user)); try done.
  rewrite py_truediv_Return by (by destruct (Venue.tags venue)).
  cbv zeta. rewrite bind_Return.
  fold (interest_signal venue other_user). fold interest_threshold.
  destruct (Rgt_dec _ interest_threshold); [|done].
  destruct (calculate_user_compatibility user other_user) as [c|]; [|done].
  simpl. by destruct (Rgt_dec _ 40).
Qed.

(** A venue without tags: the division on line 112 has divisor 0. *)
Lemma interested_users_body_tagless (user : User.t) (venue : Venue.t)
    (other_user : User.t) (interested_users : list CompatibilityScore.t) :
  Venue.tags venue = [] →
  interested_users_body user venue other_user interested_users
  = if decide (User.id other_user = User.id user) then Return interested_users
    else Raise ZeroDivisionError.
Proof.
  intros Htags. unfold interested_users_body. rewrite Htags.
  destruct (decide (User.id other_user ≠ User.id user));
    destruct (decide (User.id other_user = User.id user)); done.
Qed.

End Recommender.

Lemma known_price_range_lookup (p : string) :
  known_price_range p ↔ is_Some (price_ranges !! p).
Proof.
  split.
  - intros [-> | [-> | ->]]; eexists; reflexivity.
  - intros [n Hn]. apply price_ranges_lookup_Some in Hn.
    unfold known_price_range. naive_solver.
Qed.

(** * The claims *)

(** C2. When both users have an empty interest list the compatibility
    scorer does not return a score with interest contribution 0: the
    division on line 32 raises [ZeroDivisionError]. *)
Theorem compatibility_empty_interests_raises :
  ∀ user1 user2 : User.t,
    User.interests user1 = [] → User.interests user2 = [] →
    calculate_user_compatibility user1 user2 = Raise ZeroDivisionError.
Proof. apply calculate_user_compatibility_empty. Qed.

Lemma compatibility_empty_interests_raises_witness :
  calculate_user_compatibility (newcomer "user7" "moderate")
                               (newcomer "user8" "moderate")
  = Raise ZeroDivisionError.
Proof.
  apply (compatibility_empty_interests_raises
           (newcomer "user7" "moderate") (newcomer "user8" "moderate"));
    reflexivity.
Defined.

Lemma interested_users_loop_tagless (user : User.t) (venue : Venue.t)
    (all_users : list User.t) (other_user : User.t)
    (interested_users : list CompatibilityScore.t) :
  Venue.tags venue = [] →
  other_user ∈ all_users → User.id other_user ≠ User.id user →
  for_each all_users (interested_users_body user venue) interested_users
  = Raise ZeroDivisionError.
Proof.
  intros Htags Hin Hid.
  induction all_users as [|u all_users IH]; [by apply elem_of_nil in Hin|].
  simpl. rewrite interested_users_body_tagless by done.
  destruct (decide (User.id u = User.id user)) as [Hu|Hu]; [|done].
  simpl. apply IH.
  apply elem_of_cons in Hin as [-> | Hin]; done.
Qed.

Lemma recommend_venues_first_tagless (user : User.t) (venue : Venue.t)
    (all_venues : list Venue.t) (all_users : list User.t)
    (other_user : User.t) (top_n : Z) :
  Venue.tags venue = [] →
  other_user ∈ all_users → User.id other_user ≠ User.id user →
  recommend_venues user (venue :: all_venues) all_users top_n
  = Raise ZeroDivisionError.
Proof.
  intros Htags Hin Hid.
  unfold recommend_venues. simpl.
  rewrite recommend_venues_body_unfold.
  by rewrite (interested_users_loop_tagless user venue all_users other_user).
Qed.



(** C10. Swapping the two users leaves the score unchanged and the shared
    interests the same set, while each record names the second user of its
    call: whenever the scorer returns for both orders, the two records agree
    in this way. *)
Theorem compatibility_symmetric :
  ∀ (u1 u2 : User.t) (c12 c21 : CompatibilityScore.t),
    calculate_user_compatibility u1 u2 = Return c12 →
    calculate_user_compatibility u2 u1 = Return c21 →
    CompatibilityScore.score c12 = CompatibilityScore.score c21
    ∧ (list_to_set (CompatibilityScore.shared_interests c12) : gset string)
      = list_to_set (CompatibilityScore.shared_interests c21)
    ∧ CompatibilityScore.user_id c12 = User.id u2
    ∧ CompatibilityScore.user_id c21 = User.id u1.
Proof.
  intros u1 u2 c12 c21
    (p1 & p2 & _ & H1 & H2 & ->)%calculate_user_compatibility_inv
    (q2 & q1 & _ & H2' & H1' & ->)%calculate_user_compatibility_inv.
  assert (q1 = p1) as -> by congruence.
  assert (q2 = p2) as -> by congruence.
  split_and!.
  - unfold compatibility_record. cbv zeta. simpl.
    rewrite (calculate_distance_sym (User.latitude u2)).
    rewrite (Nat.max_comm (length (User.interests u2))).
    replace (py_set (User.interests u2) ∩ py_set (User.interests u1))
      with (py_set (User.interests u1) ∩ py_set (User.interests u2))
      by (apply leibniz_equiv, (comm (∩))).
    replace (Z.abs (p2 - p1)) with (Z.abs (p1 - p2)) by lia.
    reflexivity.
  - unfold compatibility_record. cbv zeta. simpl.
    rewrite !list_to_set_elements_L. apply leibniz_equiv, (comm (∩)).
  - reflexivity.
  - reflexivity.
Qed.

Lemma compatibility_symmetric_witness :
  CompatibilityScore.score (compatibility_record user1 user2 2 1)
  = CompatibilityScore.score (compatibility_record user2 user1 1 2)
  ∧ (list_to_set (CompatibilityScore.shared_interests
                    (compatibility_record user1 user2 2 1)) : gset string)
    = list_to_set (CompatibilityScore.shared_interests
                     (compatibility_record user2 user1 1 2))
  ∧ CompatibilityScore.user_id (compatibility_record user1 user2 2 1)
    = User.id user2
  ∧ CompatibilityScore.user_id (compatibility_record user2 user1 1 2)
    = User.id user1.
Proof.
  apply (compatibility_symmetric user1 user2).
  - apply calculate_user_compatibility_Return;
      [left; discriminate | reflexivity | reflexivity].
  - apply calculate_user_compatibility_Return;
      [left; discriminate | reflexivity | reflexivity].
Defined.

(** ** A user scored against itself *)

Lemma Rmax_0_1 : Rmax 0 1 = 1.
Proof. apply Rmax_right. lra. Qed.

Lemma py_round_2_of_Z (k : Z) (x : R) : x = IZR k / 100 → py_round x 2 = x.
Proof. intros ->. apply py_round_2_exact. Qed.

(** The score of [u] against itself, before the interest list is inspected:
    distance 0 and price difference 0 leave only the interest ratio. *)
Lemma self_compatibility_record (u : User.t) (p : Z) :
  compatibility_record u u p p
  = {| CompatibilityScore.user_id := User.id u;
       CompatibilityScore.user_name := User.name u;
       CompatibilityScore.score :=
         py_round ((0.4 * (INR (size (py_set (User.interests u)))
                           / INR (length (User.interests u))) + 0.6) * 100) 2;
       CompatibilityScore.shared_interests :=
         elements (py_set (User.interests u));
       CompatibilityScore.distance_km := 0 |}.
Proof.
  unfold compatibility_record. cbv zeta.
  rewrite calculate_distance_refl, Nat.max_id, Z.sub_diag.
  replace (py_set (User.interests u) ∩ py_set (User.interests u))
    with (py_set (User.interests u)) by (symmetry; apply leibniz_equiv, (idemp (∩))).
  change (Z.abs 0) with 0%Z.
  replace (1 - 0 / 5) with 1 by lra. replace (1 - 0 / 2) with 1 by lra.
  rewrite Rmax_0_1.
  f_equal.
  - f_equal. lra.
  - apply (py_round_2_of_Z 0). lra.
Qed.

(** C8, as stated, fails for a user whose interest list repeats a tag: the
    numerator counts distinct tags, the denominator list entries. *)
Lemma repeated_interest_self_score :
  User.interests repeater ≠ []
  ∧ ∃ c, calculate_user_compatibility repeater repeater = Return c
         ∧ CompatibilityScore.score c = 80
         ∧ CompatibilityScore.score c ≠ 100.
Proof.
  split; [discriminate|].
  exists (compatibility_record repeater repeater 2 2).
  assert (CompatibilityScore.score (compatibility_record repeater repeater 2 2)
          = 80) as Hscore.
  { rewrite self_compatibility_record. cbn [CompatibilityScore.score].
    change (User.interests repeater) with ["coffee"; "coffee"].
    replace (size (py_set ["coffee"; "coffee"])) with 1%nat by (by vm_compute).
    cbn [length INR].
    replace ((0.4 * (1 / (1 + 1)) + 0.6) * 100) with 80 by lra.
    apply (py_round_2_of_Z 8000). lra. }
  split_and!.
  - apply calculate_user_compatibility_Return; [left; discriminate|done..].
  - exact Hscore.
  - rewrite Hscore. lra.
Qed.

(** C8, amended.  For a user with a known price tier and a non-empty
    interest list without repeated tags, the scorer applied to the user and
    itself returns score 100, distance 0 and the user's whole interest set
    as shared interests. *)
Theorem self_compatibility_100 :
  ∀ u : User.t,
    User.interests u ≠ [] → NoDup (User.interests u) →
    known_price_range (User.preferred_price_range u) →
    ∃ c, calculate_user_compatibility u u = Return c
         ∧ CompatibilityScore.score c = 100
         ∧ list_to_set (CompatibilityScore.shared_interests c)
           = py_set (User.interests u)
         ∧ CompatibilityScore.distance_km c = 0
         ∧ CompatibilityScore.user_id c = User.id u.
Proof.
  intros u Hne Hnodup [p Hp]%known_price_range_lookup.
  exists (compatibility_record u u p p). split.
  { apply calculate_user_compatibility_Return; auto. }
  rewrite self_compatibility_record. simpl. split_and!; try done.
  - rewrite size_py_set_NoDup by done.
    assert (0 < INR (length (User.interests u))).
    { apply lt_0_INR. destruct (User.interests u); simpl; [done|lia]. }
    rewrite Rdiv_diag by lra.
    replace ((0.4 * 1 + 0.6) * 100) with 100 by lra.
    apply (py_round_2_of_Z 10000). lra.
  - apply list_to_set_elements_L.
Qed.

Lemma self_compatibility_100_witness :
  ∃ c, calculate_user_compatibility user1 user1 = Return c
       ∧ CompatibilityScore.score c = 100
       ∧ list_to_set (CompatibilityScore.shared_interests c)
         = py_set (User.interests user1)
       ∧ CompatibilityScore.distance_km c = 0
       ∧ CompatibilityScore.user_id c = User.id user1.
Proof.
  apply (self_compatibility_100 user1).
  - discriminate.
  - simpl. repeat constructor; set_solver.
  - right; left. reflexivity.
Defined.

(** ** Score ranges *)

Lemma proximity_component_range (user : User.t) (venue : Venue.t) :
  0 <= proximity_component user venue <= 25.
Proof.
  unfold proximity_component.
  pose proof (calculate_distance_nonneg (User.latitude user)
    (User.longitude user) (Venue.latitude venue) (Venue.longitude venue)) as Hd.
  match goal with |- context [Rmax 0 (1 - ?x)] =>
    pose proof (Rmax_0_unit x ltac:(lra)) end.
  lra.
Qed.

Lemma interest_component_range (user : User.t) (venue : Venue.t) :
  0 <= interest_component user venue <= 35.
Proof.
  unfold interest_component.
  destruct (decide (User.interests user = [])) as [|Hne]; [lra|].
  pose proof (ratio_unit_interval
    (size (py_set (User.interests user) ∩ py_set (Venue.tags venue)))
    (length (User.interests user)) (size_inter_le_l _ _)) as H.
  destruct H; [by destruct (User.interests user)|]. lra.
Qed.

Lemma price_component_range (user : User.t) (venue : Venue.t) :
  0 <= price_component user venue <= 15.
Proof. unfold price_component. destruct (decide _); lra. Qed.

Lemma implicit_interest_component_range (user : User.t) (venue : Venue.t) :
  map_Forall (λ _ seconds, 0 <= seconds) (User.viewing_history user) →
  0 <= implicit_interest_component user venue <= 25.
Proof.
  intros Hhist. unfold implicit_interest_component.
  destruct (User.viewing_history user !! Venue.id venue) as [s|] eqn:E; [|lra].
  apply Hhist in E. simpl in E.
  unfold Rmin. destruct (Rle_dec 1 (s / 60)); lra.
Qed.

Lemma venue_score_range (user : User.t) (venue : Venue.t) :
  map_Forall (λ _ seconds, 0 <= seconds) (User.viewing_history user) →
  0 <= venue_score user venue <= 100.
Proof.
  intros Hhist. unfold venue_score. apply py_round_2_unit_interval.
  pose proof (proximity_component_range user venue).
  pose proof (interest_component_range user venue).
  pose proof (price_component_range user venue).
  pose proof (implicit_interest_component_range user venue Hhist).
  lra.
Qed.

(** C3. The score of every record the compatibility scorer returns is in
    [0,100]; and when the querying user's recorded viewing durations are
    non-negative, the score of every recommendation [recommend_venues]
    returns is in [0,100]. *)
Theorem scores_between_0_and_100 :
  (∀ (user1 user2 : User.t) (c : CompatibilityScore.t),
     calculate_user_compatibility user1 user2 = Return c →
     0 <= CompatibilityScore.score c <= 100)
  ∧ (∀ (user : User.t) (all_venues : list Venue.t) (all_users : list User.t)
       (top_n : Z) (result : list VenueRecommendation.t)
       (r : VenueRecommendation.t),
       map_Forall (λ _ seconds, 0 <= seconds) (User.viewing_history user) →
       recommend_venues user all_venues all_users top_n = Return result →
       r ∈ result →
       0 <= VenueRecommendation.score r <= 100).
Proof.
  split_and!.
  - intros user1 user2 c (p1 & p2 & Hne & _ & _ & ->)%calculate_user_compatibility_inv.
    by apply compatibility_record_score.
  - intros user all_venues all_users top_n result r Hhist Hret Hr.
    destruct (recommend_venues_elem_of _ _ _ _ _ _ Hret Hr)
      as (venue & _ & collected & _ & ->).
    simpl. by apply venue_score_range.
Qed.

Lemma recommend_venues_single (user : User.t) (venue : Venue.t)
    (all_users : list User.t) (top_n : Z) (collected : list CompatibilityScore.t) :
  for_each all_users (interested_users_body user venue) [] = Return collected →
  (1 <= top_n)%Z →
  recommend_venues user [venue] all_users top_n
  = Return [venue_recommendation user venue collected].
Proof.
  intros Hloop Hn. unfold recommend_venues. simpl.
  rewrite recommend_venues_body_unfold, Hloop. simpl.
  rewrite py_slice_to_nonneg by lia.
  destruct (Z.to_nat top_n) eqn:E; [lia|].
  simpl. by rewrite take_nil.
Qed.

Lemma user1_history_nonneg :
  map_Forall (λ _ seconds, 0 <= seconds) (User.viewing_history user1).
Proof.
  intros k s H. simpl in *.
  repeat (apply lookup_insert_Some in H as [[_ <-] | [_ H]]; [lra|]).
  apply lookup_singleton_Some in H as [_ <-]. lra.
Qed.

Lemma scores_between_0_and_100_witness :
  0 <= CompatibilityScore.score (compatibility_record user1 user2 2 1) <= 100
  ∧ 0 <= VenueRecommendation.score (venue_recommendation user1 venue1 []) <= 100.
Proof.
  destruct scores_between_0_and_100 as (Hpair & Hvenues).
  split.
  - apply (Hpair user1 user2).
    apply calculate_user_compatibility_Return; [left; discriminate|done..].
  - apply (Hvenues user1 [venue1] [user1] 5%Z
             [venue_recommendation user1 venue1 []]).
    + exact user1_history_nonneg.
    + apply recommend_venues_single; [reflexivity|lia].
    + left.
Defined.

(** ** Truncation *)

(** With no other user every venue gets its record and nothing raises. *)
Lemma recommend_venues_loop_alone (user : User.t) (all_venues : list Venue.t)
    (recommendations : list VenueRecommendation.t) :
  for_each all_venues (recommend_venues_body user []) recommendations
  = Return (recommendations
            ++ map (λ venue, venue_recommendation user venue []) all_venues).
Proof.
  revert recommendations.
  induction all_venues as [|venue all_venues IH]; intros recs; simpl.
  - by rewrite app_nil_r.
  - rewrite recommend_venues_body_unfold. simpl.
    rewrite IH. by rewrite <- app_assoc.
Qed.

Lemma recommend_venues_alone (user : User.t) (all_venues : list Venue.t)
    (top_n : Z) :
  recommend_venues user all_venues [] top_n
  = Return (py_slice_to
              (sort_reverse VenueRecommendation.score
                 (map (λ venue, venue_recommendation user venue []) all_venues))
              top_n).
Proof.
  unfold recommend_venues. by rewrite recommend_venues_loop_alone.
Qed.

Lemma recommend_venues_full (user : User.t) (all_venues : list Venue.t)
    (all_users : list User.t) (recommendations : list VenueRecommendation.t) :
  for_each all_venues (recommend_venues_body user all_users) []
    = Return recommendations →
  length recommendations = length all_venues
  ∧ recommend_venues user all_venues all_users (Z.of_nat (length all_venues))
    = Return (sort_reverse VenueRecommendation.score recommendations).
Proof.
  intros Hloop.
  assert (length recommendations = length all_venues) as Hlen.
  { apply recommend_venues_loop_inv in Hloop.
    symmetry. by eapply Forall2_length. }
  split; [done|].
  unfold recommend_venues. rewrite Hloop, bind_Return.
  rewrite py_slice_to_nonneg by lia.
  rewrite Nat2Z.id, take_ge; [done|].
  by rewrite sort_reverse_length, Hlen.
Qed.

(** C5, as stated, fails for a negative cap: Python's slice [[:top_n]] then
    drops elements from the end instead of returning [min(n, |V|)] of
    them. *)
Lemma negative_cap_drops_from_the_end :
  ∃ result,
    recommend_venues user1 [venue1; venue2] [] (-1) = Return result
    ∧ length result = 1%nat
    ∧ Z.of_nat (length result) ≠ Z.min (-1) (Z.of_nat (length [venue1; venue2])).
Proof.
  eexists. split; [apply recommend_venues_alone|].
  unfold py_slice_to. change (-1 <? 0)%Z with true. cbv iota.
  rewrite length_take, !sort_reverse_length. simpl. split; [done|lia].
Qed.

(** C5, amended.  For every cap [n >= 0]: when the call with cap [len(V)]
    returns a list, the call with cap [n] returns its first [n] elements,
    [min(n, |V|)] in number; when the former raises, so does the latter. *)
Theorem truncation_law :
  ∀ (user : User.t) (all_venues : list Venue.t) (all_users : list User.t)
    (top_n : Z),
    (0 <= top_n)%Z →
    (∀ full,
       recommend_venues user all_venues all_users (Z.of_nat (length all_venues))
         = Return full →
       recommend_venues user all_venues all_users top_n
         = Return (take (Z.to_nat top_n) full)
       ∧ length (take (Z.to_nat top_n) full)
         = Nat.min (Z.to_nat top_n) (length all_venues))
    ∧ (∀ e,
         recommend_venues user all_venues all_users (Z.of_nat (length all_venues))
           = Raise e →
         recommend_venues user all_venues all_users top_n = Raise e).
Proof.
  intros user all_venues all_users top_n Hn.
  destruct (for_each all_venues (recommend_venues_body user all_users) [])
    as [recs|e'] eqn:Hloop.
  - destruct (recommend_venues_full _ _ _ _ Hloop) as [Hlen Hfull].
    rewrite Hfull. split; [|done].
    intros full [= <-]. split.
    + unfold recommend_venues. rewrite Hloop, bind_Return.
      by rewrite py_slice_to_nonneg.
    + by rewrite length_take, sort_reverse_length, Hlen.
  - unfold recommend_venues. rewrite Hloop. split; [done|].
    by intros e [= <-].
Qed.

Lemma truncation_law_witness :
  (∃ full,
     recommend_venues user1 [venue1; venue2] [] 2 = Return full
     ∧ recommend_venues user1 [venue1; venue2] [] 1 = Return (take 1 full)
     ∧ length (take 1 full) = 1%nat)
  ∧ recommend_venues user1 [tagless_venue] [user1; user2] 0
    = Raise ZeroDivisionError.
Proof.
  split.
  - eexists. split; [apply recommend_venues_alone|].
    apply (truncation_law user1 [venue1; venue2] [] 1%Z); [lia|].
    apply recommend_venues_alone.
  - apply (truncation_law user1 [tagless_venue] [user1; user2] 0%Z); [lia|].
    apply (recommend_venues_first_tagless user1 tagless_venue [] _ user2);
      [reflexivity | right; left | discriminate].
Defined.

(** ** Interested users *)

Lemma interested_users_body_Return (user : User.t) (venue : Venue.t)
    (other_user : User.t) (s s' : list CompatibilityScore.t) :
  Venue.tags venue ≠ [] →
  interested_users_body user venue other_user s = Return s' ↔
  (scored user venue other_user →
     ∃ c, calculate_user_compatibility user other_user = Return c)
  ∧ s' = s ++ option_list (retained user venue other_user).
Proof.
  intros Htags. rewrite interested_users_body_tagged by done.
  unfold scored, retained.
  destruct (decide (User.id other_user = User.id user)) as [Heq|Hne].
  { simpl. rewrite app_nil_r. naive_solver. }
  destruct (Rgt_dec (interest_signal venue other_user) interest_threshold)
    as [Hsig|Hsig].
  2: { simpl. rewrite app_nil_r. naive_solver. }
  destruct (calculate_user_compatibility user other_user) as [c|e].
  - rewrite bind_Return.
    destruct (Rgt_dec (CompatibilityScore.score c) 40); simpl;
      rewrite ?app_nil_r; naive_solver.
  - rewrite bind_Raise. split; [done|]. intros [Hc _].
    destruct Hc as [c Hc]; [done|discriminate].
Qed.

Lemma interested_users_loop_Return (user : User.t) (venue : Venue.t)
    (all_users : list User.t) (s s' : list CompatibilityScore.t) :
  Venue.tags venue ≠ [] →
  for_each all_users (interested_users_body user venue) s = Return s' ↔
  (∀ other_user, other_user ∈ all_users → scored user venue other_user →
     ∃ c, calculate_user_compatibility user other_user = Return c)
  ∧ s' = s ++ omap (retained user venue) all_users.
Proof.
  intros Htags. revert s.
  induction all_users as [|u all_users IH]; intros s; simpl.
  - rewrite app_nil_r. split.
    + intros [= <-]. split; [|done]. by intros ? ?%elem_of_nil.
    + by intros [_ ->].
  - destruct (interested_users_body user venue u s) as [s1|e] eqn:Hu.
    + apply interested_users_body_Return in Hu as [Hc ->]; [|done].
      rewrite bind_Return, IH.
      assert (∀ l : list CompatibilityScore.t,
                (s ++ option_list (retained user venue u)) ++ l
                = s ++ match retained user venue u with
                       | Some y => y :: l | None => l end) as ->.
      { intros l. rewrite <- app_assoc. by destruct (retained user venue u). }
      split.
      * intros [Hall ->]. split; [|done].
        intros o [-> | Ho]%elem_of_cons; auto.
      * intros [Hall ->]. split; [|done].
        intros o Ho. apply Hall. by right.
    + rewrite bind_Raise. split; [done|]. intros [Hall _]. exfalso.
      assert (∃ s1, interested_users_body user venue u s = Return s1)
        as [s1 Hs1]; [|congruence].
      eexists. apply interested_users_body_Return; [done|].
      split; [|done]. apply Hall. by left.
Qed.

Lemma retained_score (user : User.t) (venue : Venue.t) (other_user : User.t)
    (c : CompatibilityScore.t) :
  retained user venue other_user = Some c →
  scored user venue other_user
  ∧ calculate_user_compatibility user other_user = Return c
  ∧ CompatibilityScore.score c > 40.
Proof.
  unfold retained, scored.
  destruct (decide _); [done|].
  destruct (Rgt_dec (interest_signal _ _) _); [|done].
  destruct (calculate_user_compatibility _ _); [|done].
  destruct (Rgt_dec (CompatibilityScore.score _) _); [|done].
  by intros [= <-].
Qed.

(** C4. For a venue with tags and other users whose recorded durations
    fit a float: the inner loop skips the querying user, calls the scorer
    for another user exactly when that user's interest signal (the viewing
    time in minutes, if any, plus the share of the venue's tags among the
    interests, summed as Python sums them) exceeds the literal 0.3, and
    keeps the score exactly when it exceeds 40.  The loop returns exactly
    when the scorer returns for every user it is called for, and then has
    collected the kept scores in the order of the users.  Whenever the
    venue's iteration returns, the record it appends lists the five best of
    the collected scores in descending order, while its last reason counts
    at most three of them. *)
Theorem interested_users_selection :
  ∀ (user : User.t) (venue : Venue.t) (all_users : list User.t)
    (recommendations : list VenueRecommendation.t),
    Venue.tags venue ≠ [] →
    Forall durations_fit_float all_users →
    (∀ other_user s,
       other_user ∈ all_users →
       interested_users_body user venue other_user s
       = if decide (User.id other_user = User.id user) then Return s
         else if Rgt_dec (interest_signal venue other_user) interest_threshold
         then
           compatibility ← calculate_user_compatibility user other_user;
           Return (if Rgt_dec (CompatibilityScore.score compatibility) 40
                   then s ++ [compatibility] else s)
         else Return s)
    ∧ (∀ collected,
         for_each all_users (interested_users_body user venue) []
           = Return collected ↔
         (∀ other_user, other_user ∈ all_users → scored user venue other_user →
            ∃ c, calculate_user_compatibility user other_user = Return c)
         ∧ collected = omap (retained user venue) all_users)
    ∧ (∀ s',
         recommend_venues_body user all_users venue recommendations
           = Return s' →
         ∃ collected r,
           let sorted := sort_reverse CompatibilityScore.score collected in
           for_each all_users (interested_users_body user venue) []
             = Return collected
           ∧ s' = recommendations ++ [r]
           ∧ Forall (λ c, CompatibilityScore.score c > 40) collected
           ∧ sorted ≡ₚ collected
           ∧ descending CompatibilityScore.score sorted
           ∧ VenueRecommendation.interested_users r = take 5 sorted
           ∧ length (VenueRecommendation.interested_users r)
             = Nat.min 5 (length collected)
           ∧ VenueRecommendation.reasons r
             = own_reasons user venue
               ++ (if decide (collected = []) then []
                   else [CompatibleFriends (Nat.min 3 (length collected))])).
Proof.
  intros user venue all_users recs Htags _. split_and!.
  - intros. by apply interested_users_body_tagged.
  - intros collected. by rewrite interested_users_loop_Return.
  - intros s' (r & -> & collected & Hloop & ->)%recommend_venues_body_inv.
    exists collected, (venue_recommendation user venue collected).
    intros sorted. split_and!.
    + done.
    + done.
    + apply interested_users_loop_Return in Hloop as [_ ->]; [|done].
      apply Forall_forall. intros c (o & _ & Ho)%list_elem_of_omap.
      by apply retained_score in Ho as (_ & _ & ?).
    + apply sort_reverse_Permutation.
    + apply sort_reverse_descending.
    + done.
    + unfold venue_recommendation.
      cbn [VenueRecommendation.interested_users].
      by rewrite length_take, sort_reverse_length.
    + unfold venue_recommendation. cbn [VenueRecommendation.reasons].
      f_equal. fold sorted.
      destruct (decide (sorted ≠ [])) as [Hs|Hs];
        destruct (decide (collected = [])) as [Hc|Hc].
      * subst collected. done.
      * unfold sorted. by rewrite length_take, sort_reverse_length.
      * done.
      * exfalso. apply Hs. intros ?%sort_reverse_nil_iff. done.
Qed.

Lemma twin_compatibility (id : string) :
  calculate_user_compatibility user1 (twin id) = Return (twin_score id).
Proof.
  rewrite (calculate_user_compatibility_Return user1 (twin id) 2 2);
    [|left; discriminate|done..].
  f_equal.
  change (compatibility_record user1 (twin id) 2 2)
    with {| CompatibilityScore.user_id := id;
            CompatibilityScore.user_name := User.name user1;
            CompatibilityScore.score :=
              CompatibilityScore.score (compatibility_record user1 user1 2 2);
            CompatibilityScore.shared_interests :=
              CompatibilityScore.shared_interests
                (compatibility_record user1 user1 2 2);
            CompatibilityScore.distance_km :=
              CompatibilityScore.distance_km
                (compatibility_record user1 user1 2 2) |}.
  rewrite self_compatibility_record.
  cbn [CompatibilityScore.score CompatibilityScore.shared_interests
       CompatibilityScore.distance_km].
  unfold twin_score. f_equal.
  replace (size (py_set (User.interests user1))) with 4%nat by (by vm_compute).
  change (length (User.interests user1)) with 4%nat.
  replace ((0.4 * (INR 4 / INR 4) + 0.6) * 100) with 100 by (simpl; lra).
  apply (py_round_2_of_Z 10000). lra.
Qed.

(** Forty-five seconds alone are three quarters of a minute: the signal is
    at least one half, whatever the rounding. *)
Lemma twin_signal (id : string) :
  interest_signal venue1 (twin id) > interest_threshold.
Proof.
  pose proof interest_threshold_bounds as [_ Hthreshold].
  unfold interest_signal.
  replace (User.viewing_history (twin id) !! Venue.id venue1) with (Some 45)
    by reflexivity.
  assert (powerRZ 2 (-1) = 1 / 2) as Hhalf by (simpl; lra).
  assert (1 / 2 <= float_add 0 (float_truediv 45 60)) as Hview.
  { unfold float_add, float_truediv. rewrite <- Hhalf.
    apply binary64_ge_pow2. rewrite Rplus_0_l.
    apply Rle_trans with (powerRZ 2 (-1)); [lra|].
    apply binary64_ge_pow2. rewrite Hhalf. lra. }
  match goal with |- float_add _ (binary64 ?q) > _ =>
    assert (0 <= binary64 q) as Hoverlap
  end.
  { apply binary64_nonneg. apply Rmult_le_pos; [apply pos_INR|].
    left. apply Rinv_0_lt_compat. simpl. lra. }
  unfold float_add at 1.
  match goal with |- binary64 ?x > _ =>
    assert (powerRZ 2 (-1) <= binary64 x); [|lra]
  end.
  apply binary64_ge_pow2. lra.
Qed.

Lemma twin_retained (id : string) :
  id ≠ "user1" → retained user1 venue1 (twin id) = Some (twin_score id).
Proof.
  intros Hid. unfold retained.
  destruct (decide (User.id (twin id) = User.id user1)); [done|].
  rewrite twin_compatibility.
  destruct (Rgt_dec _ interest_threshold) as [_|Hn];
    [|destruct Hn; apply twin_signal].
  cbn [CompatibilityScore.score twin_score].
  destruct (Rgt_dec 100 40); [done|lra].
Qed.

(** Six seconds and one tag out of five: exactly three tenths on the reals,
    [0.30000000000000004] in floating point, above the literal [0.3]. *)
Lemma passer_by_signal :
  exact_interest_signal venue1 passer_by = 0.3
  ∧ interest_signal venue1 passer_by > interest_threshold.
Proof.
  unfold exact_interest_signal, interest_signal, interest_threshold.
  replace (User.viewing_history passer_by !! Venue.id venue1) with (Some 6)
    by reflexivity.
  replace (size (py_set (User.interests passer_by) ∩ py_set (Venue.tags venue1)))
    with 1%nat by (by vm_compute).
  change (length (Venue.tags venue1)) with 5%nat.
  replace (INR 1 / INR 5) with (1 / 5) by (simpl; lra).
  split; [lra|].
  rewrite six_seconds_one_of_five, binary64_three_tenths. simpl. lra.
Qed.

Lemma passer_by_compatibility :
  calculate_user_compatibility user1 passer_by = Return passer_by_score.
Proof.
  rewrite (calculate_user_compatibility_Return user1 passer_by 2 2);
    [|left; discriminate|done..].
  f_equal. unfold compatibility_record, passer_by_score. cbv zeta.
  replace (py_set (User.interests user1) ∩ py_set (User.interests passer_by))
    with (∅ : gset string) by (by vm_compute).
  change (User.latitude passer_by) with (User.latitude user1).
  change (User.longitude passer_by) with (User.longitude user1).
  rewrite calculate_distance_refl, size_empty, elements_empty.
  change (Z.abs (2 - 2)) with 0%Z. change (INR 0) with 0.
  replace (1 - 0 / 5) with 1 by lra. replace (1 - 0 / 2) with 1 by lra.
  rewrite Rmax_0_1.
  f_equal.
  - match goal with |- py_round ?x 2 = _ => replace x with 60 end.
    + apply (py_round_2_of_Z 6000). lra.
    + unfold Rdiv. lra.
  - apply (py_round_2_of_Z 0). lra.
Qed.

Lemma passer_by_retained :
  retained user1 venue1 passer_by = Some passer_by_score.
Proof.
  unfold retained.
  destruct (decide (User.id passer_by = User.id user1)); [done|].
  rewrite passer_by_compatibility.
  destruct (Rgt_dec _ interest_threshold) as [_|Hn];
    [|destruct Hn; apply passer_by_signal].
  cbn [CompatibilityScore.score passer_by_score].
  destruct (Rgt_dec 60 40); [done|lra].
Qed.

Lemma fits_float_small (x : R) : Rabs x <= 1000000 → fits_float x.
Proof.
  intros Hx. unfold fits_float.
  assert (powerRZ 2 20 <= powerRZ 2 1024) as H.
  { rewrite !powerRZ_Rpower by lra. apply Rle_Rpower; [lra|].
    apply IZR_le. lia. }
  assert (powerRZ 2 20 = 1048576) as H20 by (simpl; lra).
  lra.
Qed.

Lemma user1_durations_fit_float : durations_fit_float user1.
Proof.
  intros k s Hk. apply fits_float_small.
  simpl in Hk.
  apply lookup_insert_Some in Hk as [[_ <-] | [_ Hk]];
    [rewrite Rabs_pos_eq; lra|].
  apply lookup_insert_Some in Hk as [[_ <-] | [_ Hk]];
    [rewrite Rabs_pos_eq; lra|].
  apply lookup_singleton_Some in Hk as [_ <-]. rewrite Rabs_pos_eq; lra.
Qed.

Lemma passer_by_durations_fit_float : durations_fit_float passer_by.
Proof.
  intros k s Hk. apply fits_float_small. simpl in Hk.
  apply lookup_singleton_Some in Hk as [_ <-]. rewrite Rabs_pos_eq; lra.
Qed.

Lemma no_durations_fit_float (u : User.t) :
  User.viewing_history u = ∅ → durations_fit_float u.
Proof.
  intros H. unfold durations_fit_float. rewrite H. apply map_Forall_empty.
Qed.

Lemma interested_users_selection_witness :
  ∃ r,
    recommend_venues_body user1 (passer_by :: twins) venue1 [] = Return [r]
    ∧ length (VenueRecommendation.interested_users r) = 5%nat
    ∧ VenueRecommendation.reasons r
      = own_reasons user1 venue1 ++ [CompatibleFriends 3].
Proof.
  destruct (interested_users_selection user1 venue1 (passer_by :: twins) [])
    as (_ & Hloop & Hrecord).
  { discriminate. }
  { constructor; [exact passer_by_durations_fit_float|].
    repeat constructor; exact user1_durations_fit_float. }
  pose (collected :=
          passer_by_score
          :: (twin_score <$> ["user11"; "user12"; "user13"; "user14"])).
  assert (for_each (passer_by :: twins) (interested_users_body user1 venue1) []
          = Return collected) as Hcollected.
  { apply Hloop. split.
    - intros other_user Hin _.
      apply elem_of_cons in Hin as [-> | Hin];
        [eexists; apply passer_by_compatibility|].
      repeat (apply elem_of_cons in Hin as [-> | Hin];
              [eexists; apply twin_compatibility|]).
      by apply elem_of_nil in Hin.
    - unfold twins. cbn [omap list_omap].
      by rewrite passer_by_retained, !twin_retained by discriminate. }
  assert (recommend_venues_body user1 (passer_by :: twins) venue1 []
          = Return [venue_recommendation user1 venue1 collected]) as Hbody.
  { by rewrite recommend_venues_body_unfold, Hcollected. }
  destruct (Hrecord _ Hbody)
    as (collected' & r & Hloop' & Hr & _ & _ & _ & _ & Hlen & Hreasons).
  assert (collected' = collected) as -> by congruence.
  exists r. split_and!.
  - by rewrite Hbody, Hr.
  - exact Hlen.
  - exact Hreasons.
Defined.

(** ** Numerical bounds for the concrete scenario *)

Section Numerics.

Lemma PI_bounds : 3.1415 < PI < 3.1421.
Proof.
  pose proof (PI_2_3_7_ineq 1) as [Hlo Hhi].
  unfold tg_alt, PI_2_3_7_tg, Ratan_seq in Hlo, Hhi.
  simpl in Hlo, Hhi. lra.
Qed.

(** Two terms of the sine series from below, one from above. *)
Lemma sin_cubic_bounds (x : R) : 0 < x <= 4 → x - x ^ 3 / 6 <= sin x < x.
Proof.
  intros [Hpos Hle]. split; [|by apply sin_lt_x].
  destruct (pre_sin_bound x 0) as [Hlo _]; [lra..|].
  unfold sin_approx, sin_term in Hlo. simpl in Hlo. lra.
Qed.

(** One and two terms of the cosine series. *)
Lemma cos_quartic_bounds (x : R) :
  -2 <= x <= 2 → 1 - x ^ 2 / 2 <= cos x <= 1 - x ^ 2 / 2 + x ^ 4 / 24.
Proof.
  intros [Hlo Hhi].
  destruct (pre_cos_bound x 0) as [H1 H2]; [lra..|].
  unfold cos_approx, cos_term in H1, H2. simpl in H1, H2. lra.
Qed.

(** The arctangent between two angles whose tangents bracket [t]. *)
Lemma atan_between (y0 y1 t : R) :
  0 < y0 → 0 < y1 < 1 →
  y0 / (1 - y0 ^ 2 / 2) <= t <= y1 - y1 ^ 3 / 6 →
  y0 < 1 →
  y0 <= atan t <= y1.
Proof.
  intros Hy0 Hy1 [Hlo Hhi] Hy0'.
  pose proof PI2_1 as Hpi.
  assert (tan y0 <= t) as Htan0.
  { unfold tan.
    pose proof (sin_cubic_bounds y0 ltac:(lra)) as [_ Hs].
    pose proof (cos_quartic_bounds y0 ltac:(lra)) as [Hc _].
    assert (0 < 1 - y0 ^ 2 / 2) by nra.
    assert (0 < cos y0) by lra.
    etrans; [|exact Hlo].
    apply Rle_trans with (y0 / cos y0).
    - apply Rmult_le_compat_r; [left; by apply Rinv_0_lt_compat|lra].
    - apply Rmult_le_compat_l; [lra|].
      apply Rinv_le_contravar; lra. }
  assert (t <= tan y1) as Htan1.
  { unfold tan.
    pose proof (sin_cubic_bounds y1 ltac:(lra)) as [Hs _].
    pose proof (cos_quartic_bounds y1 ltac:(lra)) as [Hc _].
    assert (0 < 1 - y1 ^ 2 / 2) by nra.
    assert (0 < cos y1 <= 1) by (pose proof (COS_bound y1); lra).
    assert (0 <= y1 - y1 ^ 3 / 6) by nra.
    etrans; [exact Hhi|].
    apply Rle_trans with (sin y1); [lra|].
    apply Rle_trans with (sin y1 * 1); [lra|].
    apply Rmult_le_compat_l; [lra|].
    rewrite <- Rinv_1. apply Rinv_le_contravar; lra. }
  rewrite <- (atan_tan y0), <- (atan_tan y1) by lra.
  split.
  - destruct Htan0 as [Hlt | ->]; [left; by apply atan_increasing|right; done].
  - destruct Htan1 as [Hlt | ->]; [left; by apply atan_increasing|right; done].
Qed.



Lemma sqrt_between (lo hi a : R) :
  0 <= lo → 0 <= hi → lo ^ 2 <= a <= hi ^ 2 → lo <= sqrt a <= hi.
Proof.
  intros Hlo Hhi [H1 H2].
  rewrite <- (sqrt_pow2 lo), <- (sqrt_pow2 hi) by done.
  assert (0 <= lo ^ 2) by nra.
  split; apply sqrt_le_1; nra.
Qed.

Lemma cos_latitude_bounds (phi : R) :
  0.7113 <= phi <= 0.7115 → 0.7468 <= cos phi <= 0.758.
Proof.
  intros [Hlo Hhi]. pose proof PI_bounds as [Hpi _].
  pose proof (cos_decr_1 phi 0.7115 ltac:(lra) ltac:(lra) ltac:(lra) ltac:(lra) Hhi).
  pose proof (cos_decr_1 0.7113 phi ltac:(lra) ltac:(lra) ltac:(lra) ltac:(lra) Hlo).
  pose proof (cos_quartic_bounds 0.7115 ltac:(lra)) as [H1 _].
  pose proof (cos_quartic_bounds 0.7113 ltac:(lra)) as [_ H2].
  lra.
Qed.

(** The haversine term of two points 0.0005 degrees apart in latitude and
    in longitude, at latitude 40.758. *)
Lemma scenario_haversine (a : R) :
  a = sin (radians (40.7585 - 40.7580) / 2) ^ 2
      + cos (radians 40.7580) * cos (radians 40.7585)
        * sin (radians (-73.9850 - -73.9855) / 2) ^ 2 →
  0.00000544 ^ 2 <= a <= 0.00000548 ^ 2.
Proof.
  intros ->. pose proof PI_bounds as [Hpi0 Hpi1].
  replace (radians (40.7585 - 40.7580) / 2) with (PI / 720000)
    by (unfold radians; lra).
  replace (radians (-73.9850 - -73.9855) / 2) with (PI / 720000)
    by (unfold radians; lra).
  set (x := PI / 720000).
  assert (0.000004363 < x < 0.000004365) as [Hx0 Hx1] by (unfold x; lra).
  pose proof (sin_cubic_bounds x ltac:(lra)) as [Hs0 Hs1].
  assert (x ^ 3 <= 0.0000000000000001) as Hx3.
  { assert (x ^ 2 <= 0.00000000002) by nra. nra. }
  assert (0.0000043629 <= sin x <= 0.000004365) as [Hsin0 Hsin1] by lra.
  pose proof (cos_latitude_bounds (radians 40.7580)
                ltac:(unfold radians; lra)) as [Hc1 Hc1'].
  pose proof (cos_latitude_bounds (radians 40.7585)
                ltac:(unfold radians; lra)) as [Hc2 Hc2'].
  set (s := sin x) in *.
  set (c1 := cos (radians 40.7580)) in *.
  set (c2 := cos (radians 40.7585)) in *.
  assert (0.0000043629 ^ 2 <= s ^ 2 <= 0.000004365 ^ 2) as [Hq0 Hq1]
    by (split; apply pow_incr; lra).
  assert (0.7468 * 0.7468 <= c1 * c2 <= 0.758 * 0.758) as [Hp0 Hp1]
    by (split; apply Rmult_le_compat; lra).
  replace (s ^ 2 + c1 * c2 * s ^ 2) with (s ^ 2 * (1 + c1 * c2)) by ring.
  set (q := s ^ 2) in *. set (p := c1 * c2) in *.
  split.
  - apply Rle_trans with (0.0000043629 ^ 2 * (1 + 0.7468 * 0.7468)); [lra|].
    apply Rmult_le_compat; lra.
  - apply Rle_trans with (0.000004365 ^ 2 * (1 + 0.758 * 0.758)); [|lra].
    apply Rmult_le_compat; lra.
Qed.

Lemma atan2_pos_x (y x : R) : 0 < x → atan2 y x = atan (y / x).
Proof. intros Hx. unfold atan2. by destruct (Rlt_dec 0 x). Qed.

Lemma scenario_distance :
  0.06906 <= calculate_distance 40.7580 (-73.9855) 40.7585 (-73.9850) <= 0.07009.
Proof.
  unfold calculate_distance. cbv zeta.
  set (a := _ + _).
  pose proof (scenario_haversine a eq_refl) as Ha.
  pose proof (sqrt_between 0.00000544 0.00000548 a ltac:(lra) ltac:(lra) Ha)
    as [Hn0 Hn1].
  assert (0.999999 <= sqrt (1 - a) <= 1) as [Hd0 Hd1].
  { apply sqrt_between; lra. }
  rewrite atan2_pos_x by lra.
  set (n := sqrt a) in *. set (d := sqrt (1 - a)) in *.
  assert (0.00000544 <= n / d <= 0.00000549) as Ht.
  { assert (0 < / d <= / 0.999999) as [Hi0 Hi1].
    { split; [apply Rinv_0_lt_compat; lra|apply Rinv_le_contravar; lra]. }
    assert (1 <= / d).
    { rewrite <- Rinv_1 at 1. apply Rinv_le_contravar; lra. }
    unfold Rdiv. split.
    - apply Rle_trans with (0.00000544 * 1); [lra|].
      apply Rmult_le_compat; lra.
    - apply Rle_trans with (0.00000548 * / 0.999999); [|lra].
      apply Rmult_le_compat; lra. }
  destruct (atan_between 0.00000542 0.0000055 (n / d)) as [Hy0 Hy1];
    [lra|lra| |lra|lra].
  destruct Ht as [Ht0 Ht1]. split.
  - apply Rle_trans with 0.00000544; [|done].
    apply (Rmult_le_reg_r (1 - 0.00000542 ^ 2 / 2)); [lra|].
    unfold Rdiv at 1. rewrite Rmult_assoc, Rinv_l; lra.
  - lra.
Qed.
End Numerics.

Lemma py_round_2_nearest (k : Z) (x : R) :
  IZR k / 100 - 0.005 < x < IZR k / 100 + 0.005 → py_round x 2 = IZR k / 100.
Proof.
  intros Hx. unfold py_round.
  replace (10 ^ 2) with 100 by (simpl; lra).
  rewrite (round_half_even_nearest k); [done|lra].
Qed.

Lemma scenario_interest_component : interest_component user1 venue1 = 17.5.
Proof.
  unfold interest_component.
  destruct (decide (User.interests user1 = [])) as [H|_]; [discriminate H|].
  replace (size (py_set (User.interests user1) ∩ py_set (Venue.tags venue1)))
    with 2%nat by (by vm_compute).
  change (length (User.interests user1)) with 4%nat.
  simpl. lra.
Qed.

Lemma scenario_price_component : price_component user1 venue1 = 15.
Proof. reflexivity. Qed.

Lemma scenario_implicit_interest_component :
  implicit_interest_component user1 venue1 = 18.75.
Proof.
  unfold implicit_interest_component.
  replace (User.viewing_history user1 !! Venue.id venue1) with (Some 45)
    by reflexivity.
  unfold Rmin. destruct (Rle_dec 1 (45 / 60)); lra.
Qed.

Lemma scenario_proximity_component :
  24.4159 <= proximity_component user1 venue1 <= 24.4245.
Proof.
  unfold proximity_component.
  change (calculate_distance _ _ _ _)
    with (calculate_distance 40.7580 (-73.9855) 40.7585 (-73.9850)).
  pose proof scenario_distance as [Hd0 Hd1].
  rewrite Rmax_right by lra. lra.
Qed.

Lemma scenario_venue_score : venue_score user1 venue1 = 75.67.
Proof.
  unfold venue_score.
  rewrite scenario_interest_component, scenario_price_component,
    scenario_implicit_interest_component.
  pose proof scenario_proximity_component.
  rewrite (py_round_2_nearest 7567); lra.
Qed.

Lemma recommends_venues (user : User.t) (all_users : list User.t)
    (all_venues : list Venue.t) (recommendations : list VenueRecommendation.t) :
  Forall2 (recommends user all_users) all_venues recommendations →
  VenueRecommendation.venue <$> recommendations = all_venues.
Proof.
  induction 1 as [|venue r V recs (collected & _ & ->) _ IH]; [done|].
  by rewrite fmap_cons, IH.
Qed.

(** C1. Every returned recommendation belongs to one of the venues and its
    score is the sum of the four weighted components, rounded to two
    decimals; with cap [len(all_venues)] every venue is scored.  In the
    concrete scenario the components are 17.5, 15 and 18.75 and a proximity
    component between 24.4159 and 24.4245 (the two points are some 70 m
    apart), so the score is 75.67, within 0.6 of the 76.25 the
    specification quotes. *)
Theorem venue_score_weighted_sum :
  (∀ (user : User.t) (all_venues : list Venue.t) (all_users : list User.t)
     (top_n : Z) (result : list VenueRecommendation.t)
     (r : VenueRecommendation.t),
     recommend_venues user all_venues all_users top_n = Return result →
     r ∈ result →
     let venue := VenueRecommendation.venue r in
     venue ∈ all_venues
     ∧ VenueRecommendation.score r
       = py_round
           (25 * Rmax 0 (1 - calculate_distance
                               (User.latitude user) (User.longitude user)
                               (Venue.latitude venue) (Venue.longitude venue) / 3)
            + 35 * (if decide (User.interests user = []) then 0
                    else INR (size (py_set (User.interests user)
                                    ∩ py_set (Venue.tags venue)))
                         / INR (length (User.interests user)))
            + (if decide (Venue.price_range venue
                          = User.preferred_price_range user)
               then 15 else 0)
            + match User.viewing_history user !! Venue.id venue with
              | Some seconds_viewed => 25 * Rmin 1 (seconds_viewed / 60)
              | None => 0
              end) 2)
  ∧ (∀ (user : User.t) (all_venues : list Venue.t) (all_users : list User.t)
       (result : list VenueRecommendation.t),
       recommend_venues user all_venues all_users (Z.of_nat (length all_venues))
         = Return result →
       VenueRecommendation.venue <$> result ≡ₚ all_venues)
  ∧ interest_component user1 venue1 = 17.5
  ∧ price_component user1 venue1 = 15
  ∧ implicit_interest_component user1 venue1 = 18.75
  ∧ 24.4159 <= proximity_component user1 venue1 <= 24.4245
  ∧ (∀ (all_users : list User.t) (top_n : Z)
       (result : list VenueRecommendation.t) (r : VenueRecommendation.t),
       recommend_venues user1 [venue1] all_users top_n = Return result →
       r ∈ result →
       VenueRecommendation.score r = 75.67
       ∧ Rabs (VenueRecommendation.score r - 76.25) < 0.6).
Proof.
  split; [|split; [|split; [|split; [|split; [|split]]]]].
  - intros user all_venues all_users top_n result r Hret Hr venue.
    destruct (recommend_venues_elem_of _ _ _ _ _ _ Hret Hr)
      as (v & Hv & collected & _ & Hrec).
    subst venue. rewrite Hrec. split; [done|]. reflexivity.
  - intros user all_venues all_users result Hret.
    pose proof Hret as (recs & Hloop & Hall & _)%recommend_venues_inv.
    destruct (recommend_venues_full _ _ _ _ Hloop) as [_ Hfull].
    rewrite Hfull in Hret. injection Hret as <-.
    rewrite sort_reverse_Permutation.
    by rewrite (recommends_venues _ _ _ _ Hall).
  - exact scenario_interest_component.
  - exact scenario_price_component.
  - exact scenario_implicit_interest_component.
  - exact scenario_proximity_component.
  - intros all_users top_n result r Hret Hr.
    destruct (recommend_venues_elem_of _ _ _ _ _ _ Hret Hr)
      as (v & Hv & collected & _ & ->).
    apply list_elem_of_singleton in Hv as ->.
    cbn [VenueRecommendation.score venue_recommendation].
    rewrite scenario_venue_score. split; [done|].
    unfold Rabs. destruct (Rcase_abs _); lra.
Qed.

Lemma venue_score_weighted_sum_witness :
  let r := venue_recommendation user1 venue1 [] in
  (VenueRecommendation.venue r ∈ [venue1]
   ∧ VenueRecommendation.score r = venue_score user1 venue1)
  ∧ (∃ result,
       recommend_venues user1 [venue1; venue2] [] 2 = Return result
       ∧ VenueRecommendation.venue <$> result ≡ₚ [venue1; venue2])
  ∧ VenueRecommendation.score r = 75.67
  ∧ Rabs (VenueRecommendation.score r - 76.25) < 0.6.
Proof.
  intros r.
  destruct venue_score_weighted_sum
    as (Hscore & Hall & _ & _ & _ & _ & Hscenario).
  assert (recommend_venues user1 [venue1] [user1] 5 = Return [r]) as Hret
    by (apply recommend_venues_single; [reflexivity|lia]).
  split; [|split].
  - apply (Hscore user1 [venue1] [user1] 5%Z [r] r Hret). left.
  - eexists. split; [apply recommend_venues_alone|].
    apply (Hall user1 [venue1; venue2] []). apply recommend_venues_alone.
  - apply (Hscenario [user1] 5%Z [r] r Hret). left.
Defined.

(** ** Unknown price-tier labels *)

Section UnknownPriceRange.

Lemma dict_getitem_unknown (p : string) :
  ¬ known_price_range p → dict_getitem price_ranges p = Raise (KeyError p).
Proof.
  intros Hp. unfold dict_getitem.
  destruct (price_ranges !! p) as [n|] eqn:E; [|done].
  exfalso. apply Hp, known_price_range_lookup. by exists n.
Qed.

Lemma dict_getitem_known (p : string) :
  known_price_range p → ∃ n, dict_getitem price_ranges p = Return n.
Proof.
  intros [n Hn]%known_price_range_lookup. exists n.
  unfold dict_getitem. by rewrite Hn.
Qed.

Lemma compatibility_unknown_first (user1 user2 : User.t) :
  User.interests user1 ≠ [] ∨ User.interests user2 ≠ [] →
  ¬ known_price_range (User.preferred_price_range user1) →
  calculate_user_compatibility user1 user2
  = Raise (KeyError (User.preferred_price_range user1)).
Proof.
  intros Hne Hp. unfold calculate_user_compatibility.
  rewrite py_truediv_Return.
  - by rewrite bind_Return,
      (dict_getitem_unknown (User.preferred_price_range user1)).
  - destruct (User.interests user1), (User.interests user2);
      simpl; naive_solver.
Qed.

Lemma compatibility_unknown_second (user1 user2 : User.t) :
  User.interests user1 ≠ [] ∨ User.interests user2 ≠ [] →
  known_price_range (User.preferred_price_range user1) →
  ¬ known_price_range (User.preferred_price_range user2) →
  calculate_user_compatibility user1 user2
  = Raise (KeyError (User.preferred_price_range user2)).
Proof.
  intros Hne [n Hn]%dict_getitem_known Hp. unfold calculate_user_compatibility.
  rewrite py_truediv_Return.
  - by rewrite bind_Return, Hn, bind_Return,
      (dict_getitem_unknown (User.preferred_price_range user2)).
  - destruct (User.interests user1), (User.interests user2);
      simpl; naive_solver.
Qed.

Lemma compatibility_unknown_never_returns (user1 user2 : User.t)
    (c : CompatibilityScore.t) :
  ¬ known_price_range (User.preferred_price_range user1)
  ∨ ¬ known_price_range (User.preferred_price_range user2) →
  calculate_user_compatibility user1 user2 ≠ Return c.
Proof.
  intros Hunknown (p1 & p2 & _ & H1 & H2 & _)%calculate_user_compatibility_inv.
  destruct Hunknown as [H | H]; apply H, known_price_range_lookup; by eexists.
Qed.

Context (user : User.t).
Hypothesis user_interests : User.interests user ≠ [].
Hypothesis user_unknown : ¬ known_price_range (User.preferred_price_range user).

Let raised : PyError := KeyError (User.preferred_price_range user).

Lemma recommend_people_body_unknown (other_user : User.t)
    (compatibilities : list CompatibilityScore.t) :
  recommend_people_body user other_user compatibilities
  = if decide (User.id other_user = User.id user) then Return compatibilities
    else Raise raised.
Proof.
  unfold recommend_people_body.
  destruct (decide (User.id other_user ≠ User.id user));
    destruct (decide (User.id other_user = User.id user)); try done.
  by rewrite compatibility_unknown_first by auto.
Qed.

Lemma recommend_people_loop_unknown (all_users : list User.t)
    (other_user : User.t) (compatibilities : list CompatibilityScore.t) :
  other_user ∈ all_users → User.id other_user ≠ User.id user →
  for_each all_users (recommend_people_body user) compatibilities = Raise raised.
Proof.
  intros Hin Hid. revert compatibilities.
  induction all_users as [|u all_users IH]; intros compatibilities;
    [by apply elem_of_nil in Hin|].
  simpl. rewrite recommend_people_body_unknown.
  destruct (decide (User.id u = User.id user)) as [Hu|Hu]; [|done].
  rewrite bind_Return. apply IH.
  apply elem_of_cons in Hin as [-> | Hin]; done.
Qed.

Lemma scored_cases (venue : Venue.t) (other_user : User.t) :
  scored user venue other_user ∨ ¬ scored user venue other_user.
Proof.
  unfold scored.
  destruct (decide (User.id other_user = User.id user));
    destruct (Rgt_dec (interest_signal venue other_user) interest_threshold);
      tauto.
Qed.

Lemma Exists_scored_cases (venue : Venue.t) (all_users : list User.t) :
  Exists (scored user venue) all_users
  ∨ ¬ Exists (scored user venue) all_users.
Proof.
  induction all_users as [|u l [IH|IH]].
  - right. by intros ?%Exists_nil.
  - left. by right.
  - destruct (scored_cases venue u) as [Hu|Hu].
    + left. by left.
    + right. by intros [?|?]%Exists_cons.
Qed.

Lemma interested_users_body_unknown (venue : Venue.t) (other_user : User.t)
    (interested_users : list CompatibilityScore.t) :
  Venue.tags venue ≠ [] →
  (scored user venue other_user →
   interested_users_body user venue other_user interested_users = Raise raised)
  ∧ (¬ scored user venue other_user →
     interested_users_body user venue other_user interested_users
     = Return interested_users).
Proof.
  intros Htags. rewrite interested_users_body_tagged by done.
  unfold scored.
  destruct (decide (User.id other_user = User.id user)); [naive_solver|].
  destruct (Rgt_dec (interest_signal venue other_user) interest_threshold);
    [|naive_solver].
  rewrite compatibility_unknown_first by auto. naive_solver.
Qed.

Lemma interested_users_loop_unknown (venue : Venue.t) (all_users : list User.t)
    (interested_users : list CompatibilityScore.t) :
  Venue.tags venue ≠ [] →
  (Exists (scored user venue) all_users →
   for_each all_users (interested_users_body user venue) interested_users
   = Raise raised)
  ∧ (¬ Exists (scored user venue) all_users →
     for_each all_users (interested_users_body user venue) interested_users
     = Return interested_users).
Proof.
  intros Htags. induction all_users as [|u all_users [IHyes IHno]]; simpl.
  - split; [by intros ?%Exists_nil|done].
  - destruct (interested_users_body_unknown venue u interested_users Htags)
      as [Hyes Hno].
    destruct (scored_cases venue u) as [Hu|Hu].
    + rewrite Hyes by done. split; [done|]. intros Hn. destruct Hn. by left.
    + rewrite Hno by done. simpl. split.
      * intros [?|?]%Exists_cons; [done|auto].
      * intros Hn. apply IHno. intros ?. apply Hn. by right.
Qed.

Lemma interested_users_loop_unknown_cases (venue : Venue.t)
    (all_users : list User.t) :
  Venue.tags venue ≠ [] →
  for_each all_users (interested_users_body user venue) [] = Raise raised
  ∨ (¬ Exists (scored user venue) all_users
     ∧ for_each all_users (interested_users_body user venue) [] = Return []).
Proof.
  intros Htags.
  destruct (interested_users_loop_unknown venue all_users [] Htags)
    as [Hyes Hno].
  destruct (for_each all_users _ []) as [l|e] eqn:E.
  - right. assert (¬ Exists (scored user venue) all_users) as Hn.
    { intros Hex. by specialize (Hyes Hex). }
    split; [done|]. by rewrite <- Hno.
  - left. f_equal.
    destruct (Exists_scored_cases venue all_users) as [Hex|Hn].
    + specialize (Hyes Hex). congruence.
    + specialize (Hno Hn). congruence.
Qed.

Lemma recommend_venues_loop_unknown (all_venues : list Venue.t)
    (all_users : list User.t) (recommendations : list VenueRecommendation.t) :
  Forall (λ venue, Venue.tags venue ≠ []) all_venues →
  Exists (λ venue, Exists (scored user venue) all_users) all_venues →
  for_each all_venues (recommend_venues_body user all_users) recommendations
  = Raise raised.
Proof.
  intros Htags Hex. revert recommendations.
  induction Htags as [|venue all_venues Hv Htags IH]; intros recs.
  - by apply Exists_nil in Hex.
  - simpl. rewrite recommend_venues_body_unfold.
    destruct (interested_users_loop_unknown_cases venue all_users Hv)
      as [-> | [Hn ->]]; [done|].
    simpl. apply IH. by apply Exists_cons in Hex as [?|?].
Qed.

End UnknownPriceRange.

Lemma clear_of_antipodes_same (lat lon : R) :
  -90 <= lat <= 90 → -180 <= lon <= 180 → clear_of_antipodes lat lon lat lon.
Proof.
  intros Hlat Hlon. unfold clear_of_antipodes.
  rewrite calculate_distance_refl. lra.
Qed.

Lemma big_spender_user1_clear : users_clear big_spender user1.
Proof.
  unfold users_clear, clear_of_antipodes. simpl.
  rewrite calculate_distance_sym.
  pose proof scenario_distance. lra.
Qed.

Lemma luxury_unknown : ¬ known_price_range "luxury".
Proof. intros [H | [H | H]]; discriminate H. Qed.

Lemma newcomer_signal (venue : Venue.t) (id price_range : string) :
  interest_signal venue (newcomer id price_range) = 0.
Proof.
  unfold interest_signal. simpl. rewrite lookup_empty.
  replace (py_set [] ∩ py_set (Venue.tags venue)) with (∅ : gset string)
    by (unfold py_set; set_solver).
  rewrite size_empty. simpl. unfold Rdiv. rewrite Rmult_0_l, binary64_0.
  apply float_add_0_0.
Qed.

(** C9, as stated, fails for the two recommenders: a querying user whose
    price label is outside the three tiers gets an answer, not a key-lookup
    error, when the scorer is never reached.  [recommend_people] skips the
    querying user itself, and [recommend_venues] scores only the other users
    whose interest signal for the venue passes the threshold. *)
Lemma unknown_price_range_not_propagated :
  price_ranges !! User.preferred_price_range big_spender = None
  ∧ recommend_people big_spender [big_spender] 10 = Return []
  ∧ recommend_venues big_spender [venue1]
      [big_spender; newcomer "user7" "moderate"] 5
    = Return [venue_recommendation big_spender venue1 []].
Proof.
  split_and!.
  - reflexivity.
  - reflexivity.
  - apply recommend_venues_single; [|lia].
    cbn [for_each].
    rewrite interested_users_body_tagged by discriminate.
    destruct (decide (User.id big_spender = User.id big_spender)); [|done].
    rewrite bind_Return, interested_users_body_tagged by discriminate.
    destruct (decide (User.id (newcomer "user7" "moderate")
                      = User.id big_spender)); [done|].
    rewrite newcomer_signal.
    pose proof interest_threshold_bounds.
    destruct (Rgt_dec 0 interest_threshold); [lra|done].
Qed.

(** C9, amended.  A call of the scorer with a price label outside the three
    tiers never returns a score.  When the two interest lists are not both
    empty and the two users are clear of the antipodes, it raises [KeyError]
    for the first unknown label: the first user's if that is unknown, the
    second user's otherwise.  For a querying user with interests and an
    unknown label, [recommend_people] raises that [KeyError] once the list
    holds a user with another id, and [recommend_venues] raises it once
    some other user's interest signal for one of the venues passes the
    threshold; the venues have tags, the recorded durations fit a float, and
    the querying user is clear of the antipodes of every venue and user. *)
Theorem unknown_price_range_raises_KeyError :
  (∀ (user1 user2 : User.t) (c : CompatibilityScore.t),
     ¬ known_price_range (User.preferred_price_range user1)
     ∨ ¬ known_price_range (User.preferred_price_range user2) →
     calculate_user_compatibility user1 user2 ≠ Return c)
  ∧ (∀ user1 user2 : User.t,
       User.interests user1 ≠ [] ∨ User.interests user2 ≠ [] →
       users_clear user1 user2 →
       (¬ known_price_range (User.preferred_price_range user1) →
        calculate_user_compatibility user1 user2
        = Raise (KeyError (User.preferred_price_range user1)))
       ∧ (known_price_range (User.preferred_price_range user1) →
          ¬ known_price_range (User.preferred_price_range user2) →
          calculate_user_compatibility user1 user2
          = Raise (KeyError (User.preferred_price_range user2))))
  ∧ (∀ (user : User.t) (all_users : list User.t) (other_user : User.t)
       (top_n : Z),
       User.interests user ≠ [] →
       ¬ known_price_range (User.preferred_price_range user) →
       Forall (users_clear user) all_users →
       other_user ∈ all_users → User.id other_user ≠ User.id user →
       recommend_people user all_users top_n
       = Raise (KeyError (User.preferred_price_range user)))
  ∧ (∀ (user : User.t) (all_venues : list Venue.t) (all_users : list User.t)
       (venue : Venue.t) (other_user : User.t) (top_n : Z),
       User.interests user ≠ [] →
       ¬ known_price_range (User.preferred_price_range user) →
       Forall (λ v, Venue.tags v ≠ []) all_venues →
       durations_fit_float user →
       Forall durations_fit_float all_users →
       Forall (venue_clear user) all_venues →
       Forall (users_clear user) all_users →
       venue ∈ all_venues → other_user ∈ all_users →
       User.id other_user ≠ User.id user →
       interest_signal venue other_user > interest_threshold →
       recommend_venues user all_venues all_users top_n
       = Raise (KeyError (User.preferred_price_range user))).
Proof.
  split_and!.
  - intros user1 user2 c. apply compatibility_unknown_never_returns.
  - intros user1 user2 Hne _. split.
    + by apply compatibility_unknown_first.
    + by apply compatibility_unknown_second.
  - intros user all_users other_user top_n Hi Hp _ Hin Hid.
    unfold recommend_people.
    by rewrite (recommend_people_loop_unknown user Hi Hp all_users other_user).
  - intros user all_venues all_users venue other_user top_n Hi Hp Htags
      _ _ _ _ Hv Ho Hid Hsig.
    unfold recommend_venues.
    rewrite (recommend_venues_loop_unknown user Hi Hp); [done..|].
    apply Exists_exists. exists venue. split; [done|].
    apply Exists_exists. exists other_user. by split.
Qed.

Lemma unknown_price_range_raises_KeyError_witness :
  calculate_user_compatibility big_spender user1 = Raise (KeyError "luxury")
  ∧ recommend_people big_spender [user1] 10 = Raise (KeyError "luxury")
  ∧ recommend_venues big_spender [venue1] [twin "user11"] 5
    = Raise (KeyError "luxury").
Proof.
  destruct unknown_price_range_raises_KeyError
    as (_ & Hpair & Hpeople & Hvenues).
  split_and!.
  - destruct (Hpair big_spender user1) as [Hfirst _];
      [left; discriminate | exact big_spender_user1_clear |].
    apply Hfirst. exact luxury_unknown.
  - apply (Hpeople big_spender [user1] user1 10%Z);
      [discriminate | exact luxury_unknown | | left | discriminate].
    constructor; [exact big_spender_user1_clear | constructor].
  - apply (Hvenues big_spender [venue1] [twin "user11"] venue1
             (twin "user11") 5%Z);
      [discriminate | exact luxury_unknown | | | | | | left | left
      | discriminate | ].
    + constructor; [discriminate | constructor].
    + by apply no_durations_fit_float.
    + constructor; [exact user1_durations_fit_float | constructor].
    + constructor; [|constructor].
      apply clear_of_antipodes_same; simpl; lra.
    + constructor; [exact big_spender_user1_clear | constructor].
    + apply twin_signal.
Defined.

(** * Further properties *)

(** ** Geometry of the distance calculator *)

Section DistanceGeometry.

Lemma radians_minus (x y : R) : radians (x - y) = radians x - radians y.
Proof. unfold radians. lra. Qed.

Lemma sin_sqr_unit (x : R) : 0 <= sin x ^ 2 <= 1.
Proof.
  pose proof (SIN_bound x) as [H1 H2]. split; [apply pow2_ge_0|].
  replace 1 with (1 * 1) by lra. simpl. rewrite Rmult_1_r.
  destruct (Rle_dec 0 (sin x)).
  - apply Rmult_le_compat; lra.
  - replace (sin x * sin x) with ((- sin x) * (- sin x)) by ring.
    apply Rmult_le_compat; lra.
Qed.

(** [cos p * cos q] lies between [- sin² ((q - p) / 2)] and
    [cos² ((q - p) / 2)]. *)
Lemma cos_product_bounds (p q : R) :
  - sin ((q - p) / 2) ^ 2 <= cos p * cos q <= 1 - sin ((q - p) / 2) ^ 2.
Proof.
  pose proof (cos_minus q p) as Hm. pose proof (cos_plus q p) as Hp.
  pose proof (COS_bound (q + p)) as [Hlo Hhi].
  pose proof (cos_2a_sin ((q - p) / 2)) as H2.
  replace (2 * ((q - p) / 2)) with (q - p) in H2 by lra.
  simpl. lra.
Qed.

Lemma haversine_range (lat1 lon1 lat2 lon2 : R) :
  0 <= haversine lat1 lon1 lat2 lon2 <= 1.
Proof.
  unfold haversine. rewrite radians_minus.
  pose proof (cos_product_bounds (radians lat1) (radians lat2)) as [Hm0 Hm1].
  pose proof (sin_sqr_unit ((radians lat2 - radians lat1) / 2)) as [Hp0 Hp1].
  pose proof (sin_sqr_unit (radians (lon2 - lon1) / 2)) as [Hq0 Hq1].
  set (p := sin _ ^ 2) in *. set (q := sin _ ^ 2) in *.
  set (m := cos _ * cos _) in *.
  split; nra.
Qed.

Lemma atan2_quadrant (y x : R) : 0 <= y → 0 <= x → 0 <= atan2 y x <= PI / 2.
Proof.
  intros Hy Hx. split; [by apply atan2_nonneg|].
  unfold atan2. pose proof PI_RGT_0.
  destruct (Rlt_dec 0 x).
  - pose proof (atan_bound (y / x)). lra.
  - destruct (Rlt_dec x 0); [lra|].
    destruct (Rlt_dec 0 y); [lra|].
    destruct (Rlt_dec y 0); lra.
Qed.

Lemma atan2_sqrt_asin (a : R) :
  0 <= a <= 1 → atan2 (sqrt a) (sqrt (1 - a)) = asin (sqrt a).
Proof.
  intros [Ha0 [Ha1 | ->]].
  - assert (0 < sqrt (1 - a)) by (apply sqrt_lt_R0; lra).
    assert (sqrt a < 1).
    { rewrite <- sqrt_1. apply sqrt_lt_1; lra. }
    pose proof (sqrt_pos a).
    rewrite atan2_pos_x by done.
    rewrite asin_atan by lra.
    unfold Rsqr. by rewrite sqrt_sqrt.
  - replace (1 - 1) with 0 by lra. rewrite sqrt_0, sqrt_1, asin_1.
    unfold atan2.
    destruct (Rlt_dec 0 0); [lra|]. destruct (Rlt_dec 0 0); [lra|].
    destruct (Rlt_dec 0 1); [done|lra].
Qed.

End DistanceGeometry.

(** X2. No two points are further apart than half the circumference of the
    sphere of radius 6371 km. *)
Theorem distance_at_most_half_circumference :
  ∀ lat1 lon1 lat2 lon2 : R,
    calculate_distance lat1 lon1 lat2 lon2 <= 6371 * PI.
Proof.
  intros. unfold calculate_distance. cbv zeta.
  match goal with |- context [atan2 ?y ?x] =>
    pose proof (atan2_quadrant y x (sqrt_pos _) (sqrt_pos _)) end.
  lra.
Qed.

Lemma calculate_distance_asin (lat1 lon1 lat2 lon2 : R) :
  calculate_distance lat1 lon1 lat2 lon2
  = 2 * 6371 * asin (sqrt (haversine lat1 lon1 lat2 lon2)).
Proof.
  rewrite <- atan2_sqrt_asin by apply haversine_range.
  unfold calculate_distance, haversine. cbv zeta. lra.
Qed.

(** X3. The [atan2] form of line 16 is the textbook haversine formula
    [d = 2 R asin (sqrt a)]. *)
Theorem distance_is_haversine_formula :
  ∀ lat1 lon1 lat2 lon2 : R,
    calculate_distance lat1 lon1 lat2 lon2
    = 2 * 6371 * asin (sqrt (haversine lat1 lon1 lat2 lon2)).
Proof. apply calculate_distance_asin. Qed.

(** X4. The distance depends on the two longitudes through their difference
    only, and does not change when one longitude is moved by a full turn of
    360 degrees. *)
Theorem distance_longitude_shift :
  ∀ lat1 lon1 lat2 lon2 t : R,
    calculate_distance lat1 (lon1 + t) lat2 (lon2 + t)
    = calculate_distance lat1 lon1 lat2 lon2
    ∧ calculate_distance lat1 lon1 lat2 (lon2 + 360)
      = calculate_distance lat1 lon1 lat2 lon2.
Proof.
  intros. unfold calculate_distance. cbv zeta. split.
  - replace (lon2 + t - (lon1 + t)) with (lon2 - lon1) by lra. reflexivity.
  - replace (radians (lon2 + 360 - lon1) / 2)
      with (radians (lon2 - lon1) / 2 + PI) by (unfold radians; lra).
    rewrite neg_sin.
    replace ((- sin (radians (lon2 - lon1) / 2)) ^ 2)
      with (sin (radians (lon2 - lon1) / 2) ^ 2) by ring.
    reflexivity.
Qed.

Lemma asin_sqrt_sin_sqr (u : R) :
  Rabs u <= PI / 2 → asin (sqrt (sin u ^ 2)) = Rabs u.
Proof.
  intros Hu.
  replace (sin u ^ 2) with (Rsqr (sin u)) by (unfold Rsqr; ring).
  rewrite sqrt_Rsqr_abs.
  assert (Rabs (sin u) = sin (Rabs u)) as ->.
  { unfold Rabs in *. destruct (Rcase_abs u) as [Hneg|Hpos].
    - rewrite sin_neg. pose proof PI_RGT_0.
      assert (0 <= sin (- u)) by (apply sin_ge_0; lra).
      rewrite sin_neg in *. destruct (Rcase_abs (sin u)); lra.
    - pose proof PI_RGT_0.
      assert (0 <= sin u) by (apply sin_ge_0; lra).
      destruct (Rcase_abs (sin u)); lra. }
  apply asin_sin. pose proof (Rabs_pos u). pose proof PI_RGT_0. lra.
Qed.

(** X5. Along a meridian, and along the equator, the distance is the arc
    length: 6371 km times the angle between the two points in radians, for
    points at most half a turn apart. *)
Theorem distance_is_arc_length :
  (∀ lat1 lat2 lon : R,
     Rabs (lat2 - lat1) <= 180 →
     calculate_distance lat1 lon lat2 lon
     = 6371 * (Rabs (lat2 - lat1) * (PI / 180)))
  ∧ (∀ lon1 lon2 : R,
       Rabs (lon2 - lon1) <= 180 →
       calculate_distance 0 lon1 0 lon2
       = 6371 * (Rabs (lon2 - lon1) * (PI / 180))).
Proof.
  assert (∀ x, Rabs x <= 180 →
            Rabs (radians x / 2) <= PI / 2
            ∧ 2 * Rabs (radians x / 2) = Rabs x * (PI / 180)) as Hangle.
  { intros x Hx. pose proof PI_RGT_0. unfold radians.
    replace (x * (PI / 180) / 2) with (x * (PI / 360)) by lra.
    rewrite Rabs_mult, (Rabs_pos_eq (PI / 360)) by lra.
    pose proof (Rabs_pos x). split; [nra|lra]. }
  split.
  - intros lat1 lat2 lon Hlat. destruct (Hangle _ Hlat) as [Hu Heq].
    rewrite calculate_distance_asin. unfold haversine.
    replace (lon - lon) with 0 by lra. rewrite radians_0.
    replace (0 / 2) with 0 by lra. rewrite sin_0.
    match goal with |- context [sqrt ?a] =>
      replace a with (sin (radians (lat2 - lat1) / 2) ^ 2) by ring end.
    rewrite asin_sqrt_sin_sqr by done. lra.
  - intros lon1 lon2 Hlon. destruct (Hangle _ Hlon) as [Hu Heq].
    rewrite calculate_distance_asin. unfold haversine.
    replace (0 - 0) with 0 by lra. rewrite radians_0.
    replace (0 / 2) with 0 by lra. rewrite sin_0, cos_0.
    match goal with |- context [sqrt ?a] =>
      replace a with (sin (radians (lon2 - lon1) / 2) ^ 2) by ring end.
    rewrite asin_sqrt_sin_sqr by done. lra.
Qed.

Lemma distance_is_arc_length_witness :
  calculate_distance 40 (-74) 41 (-74) = 6371 * (1 * (PI / 180))
  ∧ calculate_distance 0 10 0 100 = 6371 * (90 * (PI / 180)).
Proof.
  destruct distance_is_arc_length as [Hmeridian Hequator]. split.
  - rewrite (Hmeridian 40 41 (-74)).
    + replace (41 - 40) with 1 by lra. by rewrite Rabs_R1.
    + replace (41 - 40) with 1 by lra. rewrite Rabs_R1. lra.
  - rewrite (Hequator 10 100).
    + replace (100 - 10) with 90 by lra. rewrite Rabs_pos_eq; lra.
    + replace (100 - 10) with 90 by lra. rewrite Rabs_pos_eq; lra.
Defined.

(** X22. The distance is the same in both directions, 0 between a point
    and itself, and never negative. *)
Theorem distance_symmetric_zero_nonneg :
  ∀ lat1 lon1 lat2 lon2 : R,
    calculate_distance lat1 lon1 lat2 lon2 = calculate_distance lat2 lon2 lat1 lon1
    ∧ calculate_distance lat1 lon1 lat1 lon1 = 0
    ∧ 0 <= calculate_distance lat1 lon1 lat2 lon2.
Proof.
  intros. split_and!.
  - apply calculate_distance_sym.
  - apply calculate_distance_refl.
  - apply calculate_distance_nonneg.
Qed.

(** ** The compatibility record *)

Lemma round_half_even_error (y : R) : Rabs (IZR (round_half_even y) - y) <= 1 / 2.
Proof.
  unfold round_half_even, frac_part.
  pose proof (Int_part_bounds y) as [H0 H1].
  destruct (Rlt_dec (y - IZR (Int_part y)) (1 / 2)).
  { rewrite Rabs_left1; lra. }
  destruct (Rlt_dec (1 / 2) (y - IZR (Int_part y))).
  { rewrite plus_IZR, Rabs_pos_eq; lra. }
  destruct (Z.even (Int_part y)).
  - rewrite Rabs_left1; lra.
  - rewrite plus_IZR, Rabs_pos_eq; lra.
Qed.

Lemma py_round_2_error (x : R) : Rabs (py_round x 2 - x) <= 0.005.
Proof.
  unfold py_round. replace (10 ^ 2) with 100 by (simpl; lra).
  pose proof (round_half_even_error (x * 100)) as H.
  replace (IZR (round_half_even (x * 100)) / 100 - x)
    with ((IZR (round_half_even (x * 100)) - x * 100) * / 100) by lra.
  rewrite Rabs_mult, (Rabs_pos_eq (/ 100)) by lra. lra.
Qed.

Lemma py_round_2_nonneg (x : R) : 0 <= x → 0 <= py_round x 2.
Proof.
  intros Hx. unfold py_round. replace (10 ^ 2) with 100 by (simpl; lra).
  assert (0 <= round_half_even (x * 100))%Z as H
    by (apply round_half_even_ge; lra).
  apply IZR_le in H. lra.
Qed.

(** X6. Whenever the scorer returns, the record names the second user, its
    shared interests are exactly the tags present in both interest lists,
    each listed once, and its distance is non-negative and within 0.005 km
    of the computed distance. *)
Theorem compatibility_record_fields :
  ∀ (user1 user2 : User.t) (c : CompatibilityScore.t),
    calculate_user_compatibility user1 user2 = Return c →
    CompatibilityScore.user_id c = User.id user2
    ∧ CompatibilityScore.user_name c = User.name user2
    ∧ NoDup (CompatibilityScore.shared_interests c)
    ∧ (∀ tag, tag ∈ CompatibilityScore.shared_interests c ↔
              tag ∈ User.interests user1 ∧ tag ∈ User.interests user2)
    ∧ 0 <= CompatibilityScore.distance_km c
    ∧ Rabs (CompatibilityScore.distance_km c
            - calculate_distance (User.latitude user1) (User.longitude user1)
                (User.latitude user2) (User.longitude user2)) <= 0.005.
Proof.
  intros user1 user2 c (p1 & p2 & _ & _ & _ & ->)%calculate_user_compatibility_inv.
  unfold compatibility_record. cbv zeta. simpl. split_and!; try done.
  - apply NoDup_elements.
  - intros tag. rewrite elem_of_elements. unfold py_set.
    rewrite elem_of_intersection, !elem_of_list_to_set. done.
  - apply py_round_2_nonneg, calculate_distance_nonneg.
  - apply py_round_2_error.
Qed.

Lemma compatibility_record_fields_witness :
  ∃ c, calculate_user_compatibility user1 user2 = Return c
       ∧ CompatibilityScore.user_id c = "user2"
       ∧ (∀ tag, tag ∈ CompatibilityScore.shared_interests c ↔
                 tag ∈ User.interests user1 ∧ tag ∈ User.interests user2).
Proof.
  exists (compatibility_record user1 user2 2 1).
  assert (calculate_user_compatibility user1 user2
          = Return (compatibility_record user1 user2 2 1)) as Hret
    by (apply calculate_user_compatibility_Return; [left; discriminate|done..]).
  destruct (compatibility_record_fields user1 user2 _ Hret)
    as (Hid & _ & _ & Hshared & _).
  split_and!; done.
Defined.

Lemma calculate_user_compatibility_Return_iff (user1 user2 : User.t) :
  (∃ c, calculate_user_compatibility user1 user2 = Return c) ↔
  (User.interests user1 ≠ [] ∨ User.interests user2 ≠ [])
  ∧ known_price_range (User.preferred_price_range user1)
  ∧ known_price_range (User.preferred_price_range user2).
Proof.
  split.
  - intros [c (p1 & p2 & Hne & H1 & H2 & _)%calculate_user_compatibility_inv].
    split_and!; [done|apply known_price_range_lookup..]; by eexists.
  - intros (Hne & [p1 H1]%known_price_range_lookup
                & [p2 H2]%known_price_range_lookup).
    eexists. by apply calculate_user_compatibility_Return.
Qed.

(** X7. The scorer returns a score only when at least one interest list
    is non-empty and both price labels are among the three tiers. *)
Theorem compatibility_returns_only_if :
  ∀ (user1 user2 : User.t) (c : CompatibilityScore.t),
    calculate_user_compatibility user1 user2 = Return c →
    (User.interests user1 ≠ [] ∨ User.interests user2 ≠ [])
    ∧ known_price_range (User.preferred_price_range user1)
    ∧ known_price_range (User.preferred_price_range user2).
Proof.
  intros user1 user2 c Hc.
  apply calculate_user_compatibility_Return_iff. by exists c.
Qed.

Lemma compatibility_returns_only_if_witness :
  (User.interests user1 ≠ [] ∨ User.interests user2 ≠ [])
  ∧ known_price_range (User.preferred_price_range user1)
  ∧ known_price_range (User.preferred_price_range user2).
Proof.
  apply (compatibility_returns_only_if user1 user2
           (compatibility_record user1 user2 2 1)).
  apply calculate_user_compatibility_Return;
    [left; discriminate | reflexivity | reflexivity].
Defined.

(** X8. Two users at the same coordinates with the same known price tier
    and no interest in common (at least one of them having interests) score
    exactly 60, with an empty list of shared interests. *)
Theorem disjoint_interests_score_60 :
  ∀ user1 user2 : User.t,
    User.interests user1 ≠ [] ∨ User.interests user2 ≠ [] →
    (∀ tag, tag ∈ User.interests user1 → tag ∉ User.interests user2) →
    User.latitude user1 = User.latitude user2 →
    User.longitude user1 = User.longitude user2 →
    User.preferred_price_range user1 = User.preferred_price_range user2 →
    known_price_range (User.preferred_price_range user1) →
    ∃ c, calculate_user_compatibility user1 user2 = Return c
         ∧ CompatibilityScore.score c = 60
         ∧ CompatibilityScore.shared_interests c = [].
Proof.
  intros user1 user2 Hne Hdisj Hlat Hlon Hprice [p Hp]%known_price_range_lookup.
  exists (compatibility_record user1 user2 p p).
  split; [apply calculate_user_compatibility_Return; congruence|].
  unfold compatibility_record. cbv zeta.
  assert (py_set (User.interests user1) ∩ py_set (User.interests user2) = ∅)
    as ->.
  { apply leibniz_equiv. unfold py_set. intros tag.
    rewrite elem_of_intersection, !elem_of_list_to_set. set_solver. }
  rewrite Hlat, Hlon, calculate_distance_refl, Z.sub_diag.
  cbn [CompatibilityScore.score CompatibilityScore.shared_interests].
  rewrite size_empty, elements_empty. split; [|done].
  change (Z.abs 0) with 0%Z. change (INR 0) with 0.
  replace (1 - 0 / 5) with 1 by lra. replace (1 - 0 / 2) with 1 by lra.
  rewrite Rmax_0_1.
  match goal with |- py_round ?x 2 = _ => replace x with 60 end.
  - apply (py_round_2_of_Z 6000). lra.
  - unfold Rdiv. lra.
Qed.

Lemma disjoint_interests_score_60_witness :
  ∃ c, calculate_user_compatibility (newcomer "user7" "moderate") user1
       = Return c
       ∧ CompatibilityScore.score c = 60
       ∧ CompatibilityScore.shared_interests c = [].
Proof.
  apply (disjoint_interests_score_60 (newcomer "user7" "moderate") user1).
  - right. discriminate.
  - intros tag Htag. by apply elem_of_nil in Htag.
  - reflexivity.
  - reflexivity.
  - reflexivity.
  - right; left. reflexivity.
Defined.

(** ** People recommender *)

Section People.
Context (user : User.t).

Lemma others_cons (other_user : User.t) (all_users : list User.t) :
  others user (other_user :: all_users)
  = if decide (User.id other_user ≠ User.id user)
    then other_user :: others user all_users else others user all_users.
Proof. unfold others. by rewrite filter_cons. Qed.

Lemma elem_of_others (other_user : User.t) (all_users : list User.t) :
  other_user ∈ others user all_users ↔
  other_user ∈ all_users ∧ User.id other_user ≠ User.id user.
Proof. unfold others. rewrite list_elem_of_filter. tauto. Qed.

Lemma others_length (all_users : list User.t) :
  length (others user all_users) ≤ length all_users.
Proof. apply length_filter. Qed.

Lemma recommend_people_body_eq (other_user : User.t)
    (compatibilities : list CompatibilityScore.t) :
  recommend_people_body user other_user compatibilities
  = if decide (User.id other_user ≠ User.id user) then
      compatibility ← calculate_user_compatibility user other_user;
      Return (compatibilities ++ [compatibility])
    else Return compatibilities.
Proof. reflexivity. Qed.

(** The loop of [recommend_people] returns exactly when the scorer returns
    for every other user, and then appends their records in order. *)
Lemma recommend_people_loop_Return (all_users : list User.t)
    (s s' : list CompatibilityScore.t) :
  for_each all_users (recommend_people_body user) s = Return s' ↔
  ∃ cs,
    Forall2 (λ other_user c,
               calculate_user_compatibility user other_user = Return c)
            (others user all_users) cs
    ∧ s' = s ++ cs.
Proof.
  revert s. induction all_users as [|u all_users IH]; intros s; cbn [for_each].
  - split.
    + intros [= <-]. exists []. split; [constructor|by rewrite app_nil_r].
    + intros (cs & ->%Forall2_nil_inv_l & ->). by rewrite app_nil_r.
  - rewrite others_cons, recommend_people_body_eq.
    destruct (decide (User.id u ≠ User.id user)) as [Hu|Hu].
    + destruct (calculate_user_compatibility user u) as [c|e] eqn:Hc.
      * rewrite !bind_Return, IH. split.
        -- intros (cs & Hcs & ->). exists (c :: cs).
           split; [by constructor|by rewrite <- app_assoc].
        -- intros (cs & Hcs & ->).
           apply Forall2_cons_inv_l in Hcs as (c' & cs' & Hc' & Hcs' & ->).
           assert (c' = c) as -> by congruence.
           exists cs'. split; [done|by rewrite <- app_assoc].
      * rewrite !bind_Raise. split; [done|].
        intros (cs & Hcs & _).
        apply Forall2_cons_inv_l in Hcs as (c' & cs' & Hc' & _). congruence.
    + rewrite bind_Return. apply IH.
Qed.

Lemma recommend_people_Return (all_users : list User.t) (top_n : Z)
    (result : list CompatibilityScore.t) :
  recommend_people user all_users top_n = Return result ↔
  ∃ cs,
    Forall2 (λ other_user c,
               calculate_user_compatibility user other_user = Return c)
            (others user all_users) cs
    ∧ result = py_slice_to (sort_reverse CompatibilityScore.score cs) top_n.
Proof.
  unfold recommend_people.
  destruct (for_each all_users _ []) as [cs|e] eqn:Hloop.
  - apply recommend_people_loop_Return in Hloop as (cs' & Hcs & Heq).
    simpl in Heq. subst cs'. rewrite bind_Return. split.
    + intros [= <-]. by exists cs.
    + intros (cs' & Hcs' & ->). do 3 f_equal.
      clear -Hcs Hcs'. revert cs' Hcs'.
      induction Hcs; intros cs' Hcs'.
      * by apply Forall2_nil_inv_l in Hcs' as ->.
      * apply Forall2_cons_inv_l in Hcs' as (c' & cs'' & Hc' & Hcs'' & ->).
        f_equal; [congruence|by apply IHHcs].
  - rewrite bind_Raise. split; [done|].
    intros (cs & Hcs & _). exfalso.
    assert (for_each all_users (recommend_people_body user) [] = Return cs)
      by (apply recommend_people_loop_Return; by exists cs).
    congruence.
Qed.

End People.

Lemma descending_submseteq_take {A : Type} (key : A → R) (l : list A) (n : nat) :
  descending key l → descending key (take n l).
Proof.
  unfold descending. intros H.
  rewrite <- (take_drop n l) in H. by apply StronglySorted_app_1_l in H.
Qed.

Lemma descending_py_slice_to {A : Type} (key : A → R) (l : list A) (n : Z) :
  descending key l → descending key (py_slice_to l n).
Proof.
  intros H. unfold py_slice_to.
  destruct (n <? 0)%Z; by apply descending_submseteq_take.
Qed.

Lemma Forall2_exists_r {A B : Type} (P : A → B → Prop) (l : list A) :
  (∃ ys, Forall2 P l ys) ↔ ∀ x, x ∈ l → ∃ y, P x y.
Proof.
  induction l as [|x l IH].
  - split; [by intros _ ? ?%elem_of_nil|]. intros _. exists []. constructor.
  - split.
    + intros [ys (y & ys' & Hy & Hys & ->)%Forall2_cons_inv_l] z
        [-> | Hz]%elem_of_cons; [by exists y|].
      apply IH; [by exists ys'|done].
    + intros H. destruct (H x) as [y Hy]; [by left|].
      destruct (proj2 IH) as [ys Hys]; [intros z Hz; apply H; by right|].
      exists (y :: ys). by constructor.
Qed.

Lemma recommend_people_elem_of :
  ∀ (user : User.t) (all_users : list User.t) (top_n : Z)
    (result : list CompatibilityScore.t),
    recommend_people user all_users top_n = Return result →
    descending CompatibilityScore.score result
    ∧ ∀ c, c ∈ result →
        CompatibilityScore.user_id c ≠ User.id user
        ∧ ∃ other_user,
            other_user ∈ all_users
            ∧ User.id other_user = CompatibilityScore.user_id c
            ∧ calculate_user_compatibility user other_user = Return c.
Proof.
  intros user all_users top_n result (cs & Hcs & ->)%recommend_people_Return.
  split.
  - apply descending_py_slice_to, sort_reverse_descending.
  - intros c Hc.
    assert (c ∈ cs) as Hin.
    { rewrite <- (sort_reverse_Permutation CompatibilityScore.score cs).
      eapply elem_of_submseteq; [exact Hc|apply py_slice_to_submseteq]. }
    apply list_elem_of_lookup in Hin as [i Hi].
    destruct (Forall2_lookup_r _ _ _ _ _ Hcs Hi) as (o & Ho & Hret).
    apply list_elem_of_lookup_2, elem_of_others in Ho as [Ho Hid].
    pose proof Hret as (p1 & p2 & _ & _ & _ & ->)%calculate_user_compatibility_inv.
    simpl. split; [done|]. by exists o.
Qed.

(** X9. Whatever the cap, the list returned by [recommend_people] is in
    descending order of score, and each entry is the scorer's record for a
    user of [all_users] other than the querying one: the querying user is
    never recommended to itself. *)
Theorem recommend_people_entries :
  ∀ (user : User.t) (all_users : list User.t) (top_n : Z)
    (result : list CompatibilityScore.t),
    recommend_people user all_users top_n = Return result →
    descending CompatibilityScore.score result
    ∧ ∀ c, c ∈ result →
        CompatibilityScore.user_id c ≠ User.id user
        ∧ ∃ other_user,
            other_user ∈ all_users
            ∧ User.id other_user = CompatibilityScore.user_id c
            ∧ calculate_user_compatibility user other_user = Return c.
Proof. exact recommend_people_elem_of. Qed.

Lemma recommend_people_entries_witness :
  ∃ result,
    recommend_people user1 [user1; twin "user11"] 10 = Return result
    ∧ descending CompatibilityScore.score result
    ∧ ∀ c, c ∈ result → CompatibilityScore.user_id c ≠ "user1".
Proof.
  assert (recommend_people user1 [user1; twin "user11"] 10
          = Return [twin_score "user11"]) as Hret.
  { apply recommend_people_Return. exists [twin_score "user11"]. split.
    - rewrite !others_cons. simpl. repeat constructor. apply twin_compatibility.
    - reflexivity. }
  exists [twin_score "user11"]. split; [done|].
  destruct (recommend_people_entries user1 _ _ _ Hret) as [Hdesc Hall].
  split; [done|]. intros c Hc. by apply Hall.
Defined.

(** X10. For a cap [n >= 0] the list returned by [recommend_people] has
    [min(n, k)] entries, [k] being the number of users with another id, and
    it is the first [n] entries of the list returned with cap
    [len(all_users)], which ranks all [k] of them. *)
Theorem recommend_people_truncation :
  ∀ (user : User.t) (all_users : list User.t) (top_n : Z)
    (result : list CompatibilityScore.t),
    (0 <= top_n)%Z →
    recommend_people user all_users top_n = Return result →
    length result = Nat.min (Z.to_nat top_n) (length (others user all_users))
    ∧ ∃ full,
        recommend_people user all_users (Z.of_nat (length all_users))
          = Return full
        ∧ length full = length (others user all_users)
        ∧ result = take (Z.to_nat top_n) full.
Proof.
  intros user all_users top_n result Hn (cs & Hcs & ->)%recommend_people_Return.
  pose proof (Forall2_length _ _ _ Hcs) as Hlen.
  rewrite py_slice_to_nonneg by done.
  split.
  - by rewrite length_take, sort_reverse_length, Hlen.
  - exists (sort_reverse CompatibilityScore.score cs). split_and!.
    + apply recommend_people_Return. exists cs. split; [done|].
      rewrite py_slice_to_nonneg by lia.
      rewrite take_ge; [done|].
      rewrite sort_reverse_length, <- Hlen, Nat2Z.id. apply others_length.
    + by rewrite sort_reverse_length.
    + done.
Qed.

Lemma recommend_people_truncation_witness :
  ∃ result,
    recommend_people user1 [user1; twin "user11"] 10 = Return result
    ∧ length result = 1%nat.
Proof.
  assert (recommend_people user1 [user1; twin "user11"] 10
          = Return [twin_score "user11"]) as Hret.
  { apply recommend_people_Return. exists [twin_score "user11"]. split.
    - rewrite !others_cons. simpl. repeat constructor. apply twin_compatibility.
    - reflexivity. }
  exists [twin_score "user11"]. split; [done|].
  by destruct (recommend_people_truncation user1 _ 10%Z _ ltac:(lia) Hret)
    as [-> _].
Defined.

Lemma recommend_people_Return_iff :
  ∀ (user : User.t) (all_users : list User.t) (top_n : Z),
    (∃ result, recommend_people user all_users top_n = Return result) ↔
    ∀ other_user,
      other_user ∈ all_users → User.id other_user ≠ User.id user →
      (User.interests user ≠ [] ∨ User.interests other_user ≠ [])
      ∧ known_price_range (User.preferred_price_range user)
      ∧ known_price_range (User.preferred_price_range other_user).
Proof.
  intros user all_users top_n. split.
  - intros [result (cs & Hcs & _)%recommend_people_Return] o Ho Hid.
    apply calculate_user_compatibility_Return_iff.
    apply (proj1 (Forall2_exists_r
      (λ other_user c, calculate_user_compatibility user other_user = Return c)
      (others user all_users))); [by exists cs|].
    by apply elem_of_others.
  - intros Hall.
    destruct (proj2 (Forall2_exists_r
      (λ other_user c, calculate_user_compatibility user other_user = Return c)
      (others user all_users))) as [cs Hcs].
    { intros o [Ho Hid]%elem_of_others.
      apply calculate_user_compatibility_Return_iff. by apply Hall. }
    eexists. apply recommend_people_Return. by exists cs.
Qed.

(** X11. [recommend_people] returns a list only when, for every user of
    [all_users] with another id, the querying user or that user has
    interests and both price labels are among the three tiers. *)
Theorem recommend_people_returns_only_if :
  ∀ (user : User.t) (all_users : list User.t) (top_n : Z)
    (result : list CompatibilityScore.t),
    recommend_people user all_users top_n = Return result →
    ∀ other_user,
      other_user ∈ all_users → User.id other_user ≠ User.id user →
      (User.interests user ≠ [] ∨ User.interests other_user ≠ [])
      ∧ known_price_range (User.preferred_price_range user)
      ∧ known_price_range (User.preferred_price_range other_user).
Proof.
  intros user all_users top_n result Hresult.
  apply (recommend_people_Return_iff user all_users top_n). by exists result.
Qed.

Lemma recommend_people_returns_only_if_witness :
  (User.interests user1 ≠ [] ∨ User.interests user2 ≠ [])
  ∧ known_price_range (User.preferred_price_range user1)
  ∧ known_price_range (User.preferred_price_range user2).
Proof.
  destruct (proj2 (recommend_people_Return_iff user1 [user1; user2] 10%Z))
    as [result Hresult].
  { intros o Ho Hid.
    apply elem_of_cons in Ho as [-> | Ho]; [done|].
    apply list_elem_of_singleton in Ho as ->.
    split_and!;
      [left; discriminate | right; left; reflexivity | left; reflexivity]. }
  apply (recommend_people_returns_only_if user1 [user1; user2] 10%Z result
           Hresult user2).
  - right; left.
  - discriminate.
Defined.

(** ** Order of the results *)

Section Stability.
Context {A : Type} (key : A → R).

Lemma insert_desc_filter_key (v : R) (x : A) (l : list A) :
  filter (λ y, key y = v) (insert_desc key x l)
  = filter (λ y, key y = v) (x :: l).
Proof.
  induction l as [|y l IH]; [done|]. simpl.
  destruct (Rlt_dec (key x) (key y)) as [Hlt|Hge]; [|done].
  rewrite filter_cons, IH, !filter_cons.
  destruct (decide (key y = v)), (decide (key x = v)); try done. lra.
Qed.

(** The sort is stable: elements with equal keys keep their order. *)
Lemma sort_reverse_stable (v : R) (l : list A) :
  filter (λ y, key y = v) (sort_reverse key l) = filter (λ y, key y = v) l.
Proof.
  induction l as [|x l IH]; [done|]. simpl.
  by rewrite insert_desc_filter_key, !filter_cons, IH.
Qed.

End Stability.

(** X12. Whatever the cap, the list returned by [recommend_venues] is in
    descending order of score. *)
Theorem recommend_venues_descending :
  ∀ (user : User.t) (all_venues : list Venue.t) (all_users : list User.t)
    (top_n : Z) (result : list VenueRecommendation.t),
    recommend_venues user all_venues all_users top_n = Return result →
    descending VenueRecommendation.score result.
Proof.
  intros user all_venues all_users top_n result
    (recs & _ & _ & ->)%recommend_venues_inv.
  apply descending_py_slice_to, sort_reverse_descending.
Qed.

Lemma recommend_venues_descending_witness :
  ∃ result,
    recommend_venues user1 [venue1; venue2] [] 2 = Return result
    ∧ descending VenueRecommendation.score result.
Proof.
  eexists. split; [apply recommend_venues_alone|].
  apply (recommend_venues_descending user1 [venue1; venue2] [] 2%Z).
  apply recommend_venues_alone.
Defined.

(** X13. Ties are broken by position: with cap [len(all_venues)] the
    records of any one score appear in the result in the order of their
    venues in [all_venues] (Python's sort is stable, also with
    [reverse=True]). *)
Theorem recommend_venues_ties_keep_input_order :
  ∀ (user : User.t) (all_venues : list Venue.t) (all_users : list User.t)
    (result : list VenueRecommendation.t),
    recommend_venues user all_venues all_users (Z.of_nat (length all_venues))
      = Return result →
    ∃ recommendations,
      VenueRecommendation.venue <$> recommendations = all_venues
      ∧ result ≡ₚ recommendations
      ∧ ∀ score,
          filter (λ r, VenueRecommendation.score r = score) result
          = filter (λ r, VenueRecommendation.score r = score) recommendations.
Proof.
  intros user all_venues all_users result Hret.
  pose proof Hret as (recs & Hloop & Hall & _)%recommend_venues_inv.
  destruct (recommend_venues_full _ _ _ _ Hloop) as [_ Hfull].
  rewrite Hfull in Hret. injection Hret as <-.
  exists recs. split_and!.
  - by apply (recommends_venues user all_users).
  - apply sort_reverse_Permutation.
  - intros score. apply sort_reverse_stable.
Qed.

Lemma recommend_venues_ties_keep_input_order_witness :
  ∃ result recommendations,
    recommend_venues user1 [venue1; venue1] [] 2 = Return result
    ∧ VenueRecommendation.venue <$> recommendations = [venue1; venue1]
    ∧ filter (λ r, VenueRecommendation.score r = 75.67) result
      = filter (λ r, VenueRecommendation.score r = 75.67) recommendations.
Proof.
  destruct (recommend_venues_ties_keep_input_order user1 [venue1; venue1] []
              _ (recommend_venues_alone user1 [venue1; venue1] 2))
    as (recs & Hvenues & _ & Hties).
  eexists _, recs. split; [apply recommend_venues_alone|]. split; [done|].
  apply Hties.
Defined.

(** ** Venue recommender on well-formed data *)

Lemma interested_users_body_collects (user : User.t) (venue : Venue.t)
    (other_user : User.t) (s s' : list CompatibilityScore.t) :
  interested_users_body user venue other_user s = Return s' →
  s' = s ++ option_list (retained user venue other_user).
Proof.
  destruct (decide (Venue.tags venue = [])) as [Htags|Htags].
  - rewrite interested_users_body_tagless by done. unfold retained.
    destruct (decide (User.id other_user = User.id user)); [|done].
    intros [= <-]. simpl. by rewrite app_nil_r.
  - by intros [_ ->]%interested_users_body_Return.
Qed.

Lemma interested_users_loop_collects (user : User.t) (venue : Venue.t)
    (all_users : list User.t) (s s' : list CompatibilityScore.t) :
  for_each all_users (interested_users_body user venue) s = Return s' →
  s' = s ++ omap (retained user venue) all_users.
Proof.
  revert s. induction all_users as [|u all_users IH]; intros s; cbn [for_each].
  - intros [= <-]. by rewrite app_nil_r.
  - destruct (interested_users_body user venue u s) as [s1|e] eqn:Hu;
      [|by rewrite bind_Raise].
    rewrite bind_Return. intros ->%IH.
    apply interested_users_body_collects in Hu as ->.
    rewrite <- app_assoc. simpl. by destruct (retained user venue u).
Qed.

Lemma recommend_venues_loop_returns (user : User.t) (all_venues : list Venue.t)
    (all_users : list User.t) (s : list VenueRecommendation.t) :
  (∀ venue, venue ∈ all_venues →
     ∃ collected,
       for_each all_users (interested_users_body user venue) []
       = Return collected) →
  ∃ s', for_each all_venues (recommend_venues_body user all_users) s = Return s'.
Proof.
  revert s. induction all_venues as [|venue all_venues IH]; intros s Hall.
  - by exists s.
  - cbn [for_each]. rewrite recommend_venues_body_unfold.
    destruct (Hall venue) as [collected ->]; [by left|].
    rewrite !bind_Return. apply IH. intros v Hv. apply Hall. by right.
Qed.

Lemma recommend_venues_well_formed :
  ∀ (user : User.t) (all_venues : list Venue.t) (all_users : list User.t)
    (top_n : Z),
    (∀ venue, venue ∈ all_venues → Venue.tags venue ≠ []) →
    User.interests user ≠ [] →
    known_price_range (User.preferred_price_range user) →
    (∀ other_user, other_user ∈ all_users →
       User.id other_user ≠ User.id user →
       known_price_range (User.preferred_price_range other_user)) →
    ∃ result,
      recommend_venues user all_venues all_users top_n = Return result
      ∧ ((0 <= top_n)%Z →
         length result = Nat.min (Z.to_nat top_n) (length all_venues)).
Proof.
  intros user all_venues all_users top_n Htags Hint Hprice Hothers.
  destruct (recommend_venues_loop_returns user all_venues all_users [])
    as [recs Hloop].
  { intros venue Hv. eexists.
    apply interested_users_loop_Return; [by apply Htags|]. split; [|done].
    intros o Ho [Hid _].
    apply calculate_user_compatibility_Return_iff. split_and!; auto. }
  exists (py_slice_to (sort_reverse VenueRecommendation.score recs) top_n).
  split.
  - unfold recommend_venues. by rewrite Hloop.
  - intros Hn. destruct (recommend_venues_full _ _ _ _ Hloop) as [Hlen _].
    by rewrite py_slice_to_nonneg, length_take, sort_reverse_length, Hlen.
Qed.

(** X14. On well-formed data [recommend_venues] raises neither
    [ZeroDivisionError] nor [KeyError]: every venue has tags, the querying
    user has interests and a known price tier, and every user with another
    id has a known price tier. *)
Theorem recommend_venues_well_formed_data_errors :
  ∀ (user : User.t) (all_venues : list Venue.t) (all_users : list User.t)
    (top_n : Z),
    (∀ venue, venue ∈ all_venues → Venue.tags venue ≠ []) →
    User.interests user ≠ [] →
    known_price_range (User.preferred_price_range user) →
    (∀ other_user, other_user ∈ all_users →
       User.id other_user ≠ User.id user →
       known_price_range (User.preferred_price_range other_user)) →
    recommend_venues user all_venues all_users top_n ≠ Raise ZeroDivisionError
    ∧ ∀ key,
        recommend_venues user all_venues all_users top_n ≠ Raise (KeyError key).
Proof.
  intros user all_venues all_users top_n Htags Hint Hprice Hothers.
  destruct (recommend_venues_well_formed user all_venues all_users top_n)
    as (result & -> & _); try done.
Qed.

Lemma recommend_venues_well_formed_data_errors_witness :
  recommend_venues user1 [venue1; venue2] [user1; user2] 5
  ≠ Raise ZeroDivisionError
  ∧ ∀ key,
      recommend_venues user1 [venue1; venue2] [user1; user2] 5
      ≠ Raise (KeyError key).
Proof.
  apply (recommend_venues_well_formed_data_errors
           user1 [venue1; venue2] [user1; user2] 5%Z).
  - intros venue [-> | Hv]%elem_of_cons; [discriminate|].
    apply list_elem_of_singleton in Hv as ->. discriminate.
  - discriminate.
  - right; left. reflexivity.
  - intros o [-> | Ho]%elem_of_cons Hid; [done|].
    apply list_elem_of_singleton in Ho as ->. left. reflexivity.
Defined.

(** X15. In every returned recommendation the interested users are at most
    five, in descending order of score; each is the scorer's record, with a
    score above 40, for a user of [all_users] other than the querying one
    whose interest signal for the venue, summed as Python sums it, exceeds
    the literal 0.3. *)
Theorem interested_users_invariants :
  ∀ (user : User.t) (all_venues : list Venue.t) (all_users : list User.t)
    (top_n : Z) (result : list VenueRecommendation.t)
    (r : VenueRecommendation.t),
    recommend_venues user all_venues all_users top_n = Return result →
    r ∈ result →
    length (VenueRecommendation.interested_users r) ≤ 5
    ∧ descending CompatibilityScore.score (VenueRecommendation.interested_users r)
    ∧ ∀ c, c ∈ VenueRecommendation.interested_users r →
        CompatibilityScore.user_id c ≠ User.id user
        ∧ CompatibilityScore.score c > 40
        ∧ ∃ other_user,
            other_user ∈ all_users
            ∧ User.id other_user = CompatibilityScore.user_id c
            ∧ calculate_user_compatibility user other_user = Return c
            ∧ interest_signal (VenueRecommendation.venue r) other_user
              > interest_threshold.
Proof.
  intros user all_venues all_users top_n result r Hret Hr.
  destruct (recommend_venues_elem_of _ _ _ _ _ _ Hret Hr)
    as (venue & _ & collected & Hloop & ->).
  unfold venue_recommendation.
  cbn [VenueRecommendation.interested_users VenueRecommendation.venue].
  split_and!.
  - rewrite length_take. lia.
  - apply descending_submseteq_take, sort_reverse_descending.
  - intros c Hc.
    assert (c ∈ collected) as Hin.
    { rewrite <- (sort_reverse_Permutation CompatibilityScore.score collected).
      eapply elem_of_submseteq; [exact Hc|].
      apply sublist_submseteq, sublist_take. }
    apply interested_users_loop_collects in Hloop. simpl in Hloop. subst.
    apply list_elem_of_omap in Hin as (o & Ho & Hretained).
    apply retained_score in Hretained as ([Hid Hsig] & Hc' & Hscore).
    pose proof Hc' as (p1 & p2 & _ & _ & _ & ->)%calculate_user_compatibility_inv.
    simpl. split_and!; [done|exact Hscore|]. by exists o.
Qed.

Lemma interested_users_invariants_witness :
  ∃ r,
    recommend_venues user1 [venue1] twins 5 = Return [r]
    ∧ length (VenueRecommendation.interested_users r) ≤ 5
    ∧ ∀ c, c ∈ VenueRecommendation.interested_users r →
        CompatibilityScore.user_id c ≠ "user1"
        ∧ CompatibilityScore.score c > 40.
Proof.
  set (collected := twin_score <$> ["user11"; "user12"; "user13"; "user14"]).
  assert (recommend_venues user1 [venue1] twins 5
          = Return [venue_recommendation user1 venue1 collected]) as Hret.
  { apply recommend_venues_single; [|lia].
    apply interested_users_loop_Return; [discriminate|]. split.
    - intros other_user Hin _.
      repeat (apply elem_of_cons in Hin as [-> | Hin];
              [eexists; apply twin_compatibility|]).
      by apply elem_of_nil in Hin.
    - unfold twins. cbn [omap list_omap].
      by rewrite !twin_retained by discriminate. }
  exists (venue_recommendation user1 venue1 collected). split; [done|].
  destruct (interested_users_invariants user1 [venue1] twins 5%Z _
              (venue_recommendation user1 venue1 collected) Hret)
    as (Hlen & _ & Hall); [left|].
  split; [done|]. intros c Hc.
  destruct (Hall c Hc) as (Hid & Hscore & _). done.
Defined.

(** ** Reasons *)

Lemma own_reasons_no_friends (user : User.t) (venue : Venue.t) (count : nat) :
  CompatibleFriends count ∉ own_reasons user venue.
Proof.
  unfold own_reasons. cbv zeta.
  destruct (Rlt_dec _ 1), (decide (_ ≠ ∅)), (decide (_ = _)),
    (User.viewing_history user !! Venue.id venue);
    simpl; rewrite ?elem_of_cons, elem_of_nil; naive_solver.
Qed.

Lemma own_reasons_length (user : User.t) (venue : Venue.t) :
  length (own_reasons user venue) ≤ 4.
Proof.
  unfold own_reasons. cbv zeta.
  destruct (Rlt_dec _ 1), (decide (_ ≠ ∅)), (decide (_ = _)),
    (User.viewing_history user !! Venue.id venue); simpl; lia.
Qed.

Lemma own_reasons_nil_score (user : User.t) (venue : Venue.t) :
  own_reasons user venue = [] → venue_score user venue <= 16.67.
Proof.
  unfold own_reasons, venue_score, proximity_component, interest_component,
    price_component, implicit_interest_component. cbv zeta.
  set (d := calculate_distance _ _ _ _).
  destruct (Rlt_dec d 1) as [|Hd]; [done|].
  destruct (decide (_ ≠ ∅)) as [|Htags]; [done|].
  destruct (decide (Venue.price_range venue = _)); [done|].
  destruct (User.viewing_history user !! Venue.id venue); [done|].
  intros _. apply dec_stable in Htags. rewrite Htags, size_empty.
  change (INR 0) with 0.
  assert (0 <= Rmax 0 (1 - d / 3) <= 2 / 3) as [H0 H1].
  { unfold Rmax. destruct (Rle_dec 0 (1 - d / 3)); lra. }
  apply (py_round_2_between 0 1667).
  destruct (decide (User.interests user = [])); unfold Rdiv; lra.
Qed.

(** X16. In every returned recommendation there are at most five reasons;
    the reason counting compatible friends is present exactly when the
    list of interested users is non-empty, and its count is
    [min(3, len(interested_users))]; a recommendation without any reason
    scores at most 16.67. *)
Theorem reasons_match_the_record :
  ∀ (user : User.t) (all_venues : list Venue.t) (all_users : list User.t)
    (top_n : Z) (result : list VenueRecommendation.t)
    (r : VenueRecommendation.t),
    recommend_venues user all_venues all_users top_n = Return result →
    r ∈ result →
    length (VenueRecommendation.reasons r) ≤ 5
    ∧ (∀ count,
         CompatibleFriends count ∈ VenueRecommendation.reasons r ↔
         VenueRecommendation.interested_users r ≠ []
         ∧ count = Nat.min 3 (length (VenueRecommendation.interested_users r)))
    ∧ (VenueRecommendation.reasons r = [] →
       VenueRecommendation.score r <= 16.67).
Proof.
  intros user all_venues all_users top_n result r Hret Hr.
  destruct (recommend_venues_elem_of _ _ _ _ _ _ Hret Hr)
    as (venue & _ & collected & _ & ->).
  unfold venue_recommendation.
  cbn [VenueRecommendation.interested_users VenueRecommendation.reasons
       VenueRecommendation.score].
  set (sorted := sort_reverse CompatibilityScore.score collected).
  pose proof (own_reasons_length user venue) as Hown.
  split_and!.
  - rewrite length_app. destruct (decide (sorted ≠ [])); simpl; lia.
  - intros count. rewrite elem_of_app, !length_take.
    pose proof (own_reasons_no_friends user venue count) as Hno.
    destruct (decide (sorted ≠ [])) as [Hs|Hs].
    + clearbody sorted. rewrite list_elem_of_singleton. split.
      * intros [?|Heq]; [done|].
        assert (count = Nat.min 3 (length sorted)) as Hcount by congruence.
        split; [|lia].
        destruct sorted; [done|]. discriminate.
      * intros [_ Hcount]. right. f_equal. lia.
    + apply dec_stable in Hs. rewrite Hs, elem_of_nil. simpl.
      split; [tauto|]. by intros [? _].
  - intros [Hnil _]%app_eq_nil. by apply own_reasons_nil_score.
Qed.

Lemma reasons_match_the_record_witness :
  ∃ r,
    recommend_venues user1 [venue1] [user1] 5 = Return [r]
    ∧ length (VenueRecommendation.reasons r) ≤ 5
    ∧ ∀ count, CompatibleFriends count ∉ VenueRecommendation.reasons r.
Proof.
  assert (recommend_venues user1 [venue1] [user1] 5
          = Return [venue_recommendation user1 venue1 []]) as Hret
    by (apply recommend_venues_single; [reflexivity|lia]).
  exists (venue_recommendation user1 venue1 []). split; [done|].
  destruct (reasons_match_the_record user1 [venue1] [user1] 5%Z _
              (venue_recommendation user1 venue1 []) Hret)
    as (Hlen & Hfriends & _); [left|].
  split; [done|]. intros count [Hne _]%Hfriends. by apply Hne.
Defined.

(** ** Transport layer *)

Section Lookup.
Context {A : Type} (f : A → bool).

(** [find] returns the first element that satisfies the test. *)
Lemma find_Some_first (l : list A) (x : A) :
  find f l = Some x ↔
  ∃ l1 l2, l = l1 ++ x :: l2 ∧ f x = true ∧ ∀ y, y ∈ l1 → f y = false.
Proof.
  induction l as [|z l IH]; simpl.
  - split; [done|]. intros (l1 & l2 & H & _). by destruct l1.
  - destruct (f z) eqn:Hz.
    + split.
      * intros [= ->]. exists [], l. split_and!; [done..|].
        by intros ? ?%elem_of_nil.
      * intros ([|y l1] & l2 & Heq & Hx & Hl1); simplify_eq/=; [done|].
        rewrite Hl1 in Hz by left. done.
    + rewrite IH. split.
      * intros (l1 & l2 & -> & Hx & Hl1). exists (z :: l1), l2.
        split_and!; [done..|].
        intros y [-> | Hy]%elem_of_cons; auto.
      * intros ([|y l1] & l2 & Heq & Hx & Hl1); simplify_eq/=; [congruence|].
        exists l1, l2. split_and!; [done..|].
        intros y' Hy'. apply Hl1. by right.
Qed.

Lemma find_None_iff (l : list A) :
  find f l = None ↔ ∀ y, y ∈ l → f y = false.
Proof.
  induction l as [|z l IH]; simpl.
  - split; [by intros _ ? ?%elem_of_nil|done].
  - destruct (f z) eqn:Hz.
    + split; [done|]. intros H. rewrite H in Hz by left. done.
    + rewrite IH. split.
      * intros H y [-> | Hy]%elem_of_cons; auto.
      * intros H y Hy. apply H. by right.
Qed.

End Lookup.

Lemma next_user_Some (USERS : list User.t) (user_id : string) (user : User.t) :
  next_user USERS user_id = Some user ↔
  ∃ l1 l2, USERS = l1 ++ user :: l2 ∧ User.id user = user_id
           ∧ ∀ u, u ∈ l1 → User.id u ≠ user_id.
Proof.
  unfold next_user. rewrite find_Some_first.
  setoid_rewrite bool_decide_eq_true. setoid_rewrite bool_decide_eq_false.
  done.
Qed.

Lemma next_user_None (USERS : list User.t) (user_id : string) :
  next_user USERS user_id = None ↔ ∀ u, u ∈ USERS → User.id u ≠ user_id.
Proof.
  unfold next_user. rewrite find_None_iff.
  by setoid_rewrite bool_decide_eq_false.
Qed.

Lemma next_user_elem_of (USERS : list User.t) (user_id : string) (user : User.t) :
  next_user USERS user_id = Some user → user ∈ USERS ∧ User.id user = user_id.
Proof.
  intros (l1 & l2 & -> & Hid & _)%next_user_Some. split; [|done].
  apply elem_of_app. right. left.
Qed.

Lemma next_venue_Some (VENUES : list Venue.t) (venue_id : string)
    (venue : Venue.t) :
  next_venue VENUES venue_id = Some venue ↔
  ∃ l1 l2, VENUES = l1 ++ venue :: l2 ∧ Venue.id venue = venue_id
           ∧ ∀ v, v ∈ l1 → Venue.id v ≠ venue_id.
Proof.
  unfold next_venue. rewrite find_Some_first.
  setoid_rewrite bool_decide_eq_true. setoid_rewrite bool_decide_eq_false.
  done.
Qed.

Lemma next_venue_None (VENUES : list Venue.t) (venue_id : string) :
  next_venue VENUES venue_id = None ↔ ∀ v, v ∈ VENUES → Venue.id v ≠ venue_id.
Proof.
  unfold next_venue. rewrite find_None_iff.
  by setoid_rewrite bool_decide_eq_false.
Qed.

(** X17. [get_user] answers with the first user of the collection that has
    the requested id, and with status 404, naming the id, exactly when no
    user has it; [get_venue] does the same for venues. *)
Theorem lookup_by_id :
  (∀ (USERS : list User.t) (user_id : string),
     (∀ user,
        get_user USERS user_id = Respond user ↔
        ∃ l1 l2, USERS = l1 ++ user :: l2 ∧ User.id user = user_id
                 ∧ ∀ u, u ∈ l1 → User.id u ≠ user_id)
     ∧ (get_user USERS user_id
        = Reject (HTTPException.mk 404 ("User " +:+ user_id +:+ " not found")) ↔
        ∀ u, u ∈ USERS → User.id u ≠ user_id))
  ∧ (∀ (VENUES : list Venue.t) (venue_id : string),
       (∀ venue,
          get_venue VENUES venue_id = Respond venue ↔
          ∃ l1 l2, VENUES = l1 ++ venue :: l2 ∧ Venue.id venue = venue_id
                   ∧ ∀ v, v ∈ l1 → Venue.id v ≠ venue_id)
       ∧ (get_venue VENUES venue_id
          = Reject (HTTPException.mk 404
                      ("Venue " +:+ venue_id +:+ " not found")) ↔
          ∀ v, v ∈ VENUES → Venue.id v ≠ venue_id)).
Proof.
  split.
  - intros USERS user_id. unfold get_user. split.
    + intros user. rewrite <- next_user_Some.
      destruct (next_user USERS user_id); naive_solver.
    + rewrite <- next_user_None.
      destruct (next_user USERS user_id); naive_solver.
  - intros VENUES venue_id. unfold get_venue. split.
    + intros venue. rewrite <- next_venue_Some.
      destruct (next_venue VENUES venue_id); naive_solver.
    + rewrite <- next_venue_None.
      destruct (next_venue VENUES venue_id); naive_solver.
Qed.

Lemma lookup_by_id_witness :
  get_user mock_data.USERS "user2" = Respond user2
  ∧ get_user mock_data.USERS "user6"
    = Reject (HTTPException.mk 404 "User user6 not found")
  ∧ get_venue mock_data.VENUES "venue1" = Respond venue1
  ∧ get_venue mock_data.VENUES "venue7"
    = Reject (HTTPException.mk 404 "Venue venue7 not found").
Proof.
  destruct lookup_by_id as [Huser Hvenue]. split_and!.
  - apply Huser. exists [user1], [user3; user4; user5].
    split_and!; [done..|].
    intros u ->%list_elem_of_singleton. discriminate.
  - apply (proj2 (Huser mock_data.USERS "user6")).
    intros u Hu. unfold mock_data.USERS in Hu.
    repeat (apply elem_of_cons in Hu as [-> | Hu]; [discriminate|]).
    by apply elem_of_nil in Hu.
  - apply Hvenue. exists [], [venue2; venue3; venue4; venue5; venue6].
    split_and!; [done..|]. by intros v ?%elem_of_nil.
  - apply (proj2 (Hvenue mock_data.VENUES "venue7")).
    intros v Hv. unfold mock_data.VENUES in Hv.
    repeat (apply elem_of_cons in Hv as [-> | Hv]; [discriminate|]).
    by apply elem_of_nil in Hv.
Defined.

Lemma recommend_venues_length (user : User.t) (all_venues : list Venue.t)
    (all_users : list User.t) (top_n : Z) (result : list VenueRecommendation.t) :
  recommend_venues user all_venues all_users top_n = Return result →
  length result
  = if (top_n <? 0)%Z then Z.to_nat (Z.of_nat (length all_venues) + top_n)
    else Nat.min (Z.to_nat top_n) (length all_venues).
Proof.
  intros (recs & _ & Hall & ->)%recommend_venues_inv.
  apply Forall2_length in Hall.
  unfold py_slice_to.
  destruct (top_n <? 0)%Z eqn:Hn;
    rewrite length_take, !sort_reverse_length, <- Hall; lia.
Qed.

(** X18. [get_venue_recommendations] rejects an unknown user id with status
    404 naming the id.  A body it returns is what [recommend_venues] returns
    for the first user of the collection with that id (no earlier user has
    it) and the cap [min(top_n, 20)]: at most 20
    entries for a cap [top_n >= 0]; a negative cap is not clamped and yields
    [len(VENUES) + top_n] entries (none when that is negative). *)
Theorem venue_endpoint_cap :
  ∀ (USERS : list User.t) (VENUES : list Venue.t) (user_id : string) (top_n : Z),
    ((∀ u, u ∈ USERS → User.id u ≠ user_id) →
     get_venue_recommendations USERS VENUES user_id top_n
     = Reject (HTTPException.mk 404 ("User " +:+ user_id +:+ " not found")))
    ∧ ∀ body,
        get_venue_recommendations USERS VENUES user_id top_n = Respond body →
        (∃ user l1 l2,
           USERS = l1 ++ user :: l2 ∧ User.id user = user_id
           ∧ (∀ u, u ∈ l1 → User.id u ≠ user_id)
           ∧ recommend_venues user VENUES USERS (Z.min top_n 20)
             = Return body)
        ∧ ((0 <= top_n)%Z →
           length body = Nat.min (Z.to_nat (Z.min top_n 20)) (length VENUES)
           ∧ length body ≤ 20)
        ∧ ((top_n < 0)%Z →
           length body = Z.to_nat (Z.of_nat (length VENUES) + top_n)).
Proof.
  intros USERS VENUES user_id top_n. unfold get_venue_recommendations.
  assert ((if (20 <? top_n)%Z then 20%Z else top_n) = Z.min top_n 20) as ->
    by (destruct (20 <? top_n)%Z eqn:E; lia).
  split.
  - intros Hnone. by apply next_user_None in Hnone as ->.
  - intros body.
    destruct (next_user USERS user_id) as [user|] eqn:Huser; [|done].
    apply next_user_Some in Huser as (l1 & l2 & HUSERS & Hid & Hfirst).
    destruct (recommend_venues user VENUES USERS (Z.min top_n 20))
      as [result|e] eqn:Hret; [|done].
    intros [= <-]. pose proof (recommend_venues_length _ _ _ _ _ Hret) as Hlen.
    split_and!.
    + by exists user, l1, l2.
    + intros Hn. destruct (Z.min top_n 20 <? 0)%Z eqn:E; [lia|].
      rewrite Hlen. split; lia.
    + intros Hn. destruct (Z.min top_n 20 <? 0)%Z eqn:E; [|lia].
      rewrite Hlen. lia.
Qed.

Lemma venue_endpoint_cap_witness :
  get_venue_recommendations [user1] [venue1; venue2] "user6" 5
  = Reject (HTTPException.mk 404 "User user6 not found")
  ∧ ∃ body,
      get_venue_recommendations [user1] [venue1; venue2] "user1" 25
      = Respond body
      ∧ length body = 2%nat.
Proof.
  split.
  - apply (venue_endpoint_cap [user1] [venue1; venue2] "user6" 5%Z).
    intros u ->%list_elem_of_singleton. discriminate.
  - destruct (recommend_venues_well_formed user1 [venue1; venue2] [user1] 20%Z)
      as (body & Hbody & _).
    + intros venue [-> | Hv]%elem_of_cons; [discriminate|].
      apply list_elem_of_singleton in Hv as ->. discriminate.
    + discriminate.
    + right; left. reflexivity.
    + by intros o ->%list_elem_of_singleton Hid.
    + exists body.
      assert (get_venue_recommendations [user1] [venue1; venue2] "user1" 25
              = Respond body) as Hget.
      { unfold get_venue_recommendations.
        change (next_user [user1] "user1") with (Some user1).
        change (if (20 <? 25)%Z then 20%Z else 25%Z) with 20%Z.
        cbv iota beta. by rewrite Hbody. }
      split; [done|].
      destruct (venue_endpoint_cap [user1] [venue1; venue2] "user1" 25%Z)
        as [_ Hcap].
      by destruct (Hcap body Hget) as (_ & [-> _] & _); [lia|].
Defined.

(** X19. [get_people_recommendations] rejects an unknown user id with status
    404.  A body it returns is in descending order of score and never lists
    the requested user: every entry carries the id of another user of the
    collection.  The cap is not clamped: for [top_n >= 0] the body has
    [min(top_n, k)] entries, [k] being the number of users with another
    id. *)
Theorem people_endpoint_entries :
  ∀ (USERS : list User.t) (user_id : string) (top_n : Z),
    ((∀ u, u ∈ USERS → User.id u ≠ user_id) →
     get_people_recommendations USERS user_id top_n
     = Reject (HTTPException.mk 404 ("User " +:+ user_id +:+ " not found")))
    ∧ ∀ body,
        get_people_recommendations USERS user_id top_n = Respond body →
        descending CompatibilityScore.score body
        ∧ (∀ c, c ∈ body →
             CompatibilityScore.user_id c ≠ user_id
             ∧ ∃ u, u ∈ USERS ∧ User.id u = CompatibilityScore.user_id c)
        ∧ ((0 <= top_n)%Z →
           length body
           = Nat.min (Z.to_nat top_n)
               (length (filter (λ u, User.id u ≠ user_id) USERS))).
Proof.
  intros USERS user_id top_n. unfold get_people_recommendations. split.
  - intros Hnone. by apply next_user_None in Hnone as ->.
  - intros body.
    destruct (next_user USERS user_id) as [user|] eqn:Huser; [|done].
    apply next_user_elem_of in Huser as [Hin <-].
    destruct (recommend_people user USERS top_n) as [result|e] eqn:Hret;
      [|done].
    intros [= <-].
    destruct (recommend_people_elem_of _ _ _ _ Hret) as [Hdesc Hall].
    split_and!; [done| |].
    + intros c (Hid & o & Ho & Hoid & _)%Hall. split; [done|]. by exists o.
    + intros Hn.
      apply recommend_people_Return in Hret as (cs & Hcs & ->).
      apply Forall2_length in Hcs.
      rewrite py_slice_to_nonneg, length_take, sort_reverse_length by done.
      by rewrite <- Hcs.
Qed.

Lemma people_endpoint_entries_witness :
  get_people_recommendations [user1; user2] "user6" 10
  = Reject (HTTPException.mk 404 "User user6 not found")
  ∧ ∃ body,
      get_people_recommendations [user1; user2] "user1" 10 = Respond body
      ∧ length body = 1%nat
      ∧ ∀ c, c ∈ body → CompatibilityScore.user_id c ≠ "user1".
Proof.
  destruct (people_endpoint_entries [user1; user2] "user6" 10%Z) as [H404 _].
  destruct (people_endpoint_entries [user1; user2] "user1" 10%Z) as [_ Hbody].
  split.
  - apply H404. intros u [-> | Hu]%elem_of_cons; [discriminate|].
    apply list_elem_of_singleton in Hu as ->. discriminate.
  - destruct (proj2 (recommend_people_Return_iff user1 [user1; user2] 10%Z))
      as [body Hret].
    { intros o Ho Hid.
      apply elem_of_cons in Ho as [-> | Ho]; [done|].
      apply list_elem_of_singleton in Ho as ->.
      split_and!;
        [left; discriminate | right; left; reflexivity | left; reflexivity]. }
    exists body.
    assert (get_people_recommendations [user1; user2] "user1" 10
            = Respond body) as Hget.
    { unfold get_people_recommendations.
      change (next_user [user1; user2] "user1") with (Some user1).
      cbv iota beta. by rewrite Hret. }
    destruct (Hbody body Hget) as (_ & Hall & Hlen).
    split_and!; [done|by apply Hlen|].
    intros c Hc. by destruct (Hall c Hc).
Defined.

(** ** Booking validation *)

Section Booking.
Context (USERS : list User.t) (VENUES : list Venue.t).

Lemma existsb_user_exists (user_id : string) :
  existsb (λ u, bool_decide (User.id u = user_id)) USERS = true ↔
  user_exists USERS user_id.
Proof.
  rewrite existsb_exists. unfold user_exists.
  setoid_rewrite bool_decide_eq_true. by setoid_rewrite list_elem_of_In.
Qed.

Lemma verify_users_Respond (user_ids : list string) :
  verify_users USERS user_ids = Respond () ↔
  ∀ user_id, user_id ∈ user_ids → user_exists USERS user_id.
Proof.
  induction user_ids as [|user_id user_ids IH]; simpl.
  - split; [by intros _ ? ?%elem_of_nil|done].
  - destruct (existsb _ USERS) eqn:E; simpl.
    + apply existsb_user_exists in E. rewrite IH. split.
      * intros H x [-> | Hx]%elem_of_cons; auto.
      * intros H x Hx. apply H. by right.
    + split; [done|]. intros H.
      assert (user_exists USERS user_id) as Hex by (apply H; left).
      apply existsb_user_exists in Hex. congruence.
Qed.

Lemma verify_users_Reject (user_ids : list string) (e : HTTPException.t) :
  verify_users USERS user_ids = Reject e ↔
  ∃ l1 user_id l2,
    user_ids = l1 ++ user_id :: l2
    ∧ (∀ x, x ∈ l1 → user_exists USERS x)
    ∧ ¬ user_exists USERS user_id
    ∧ e = HTTPException.mk 404 ("User " +:+ user_id +:+ " not found").
Proof.
  induction user_ids as [|user_id user_ids IH]; simpl.
  - split; [done|]. intros (l1 & ? & ? & H & _). by destruct l1.
  - destruct (existsb _ USERS) eqn:E; simpl.
    + apply existsb_user_exists in E. rewrite IH. split.
      * intros (l1 & x & l2 & -> & Hl1 & Hx & ->).
        exists (user_id :: l1), x, l2. split_and!; [done| |done..].
        intros y [-> | Hy]%elem_of_cons; auto.
      * intros ([|y l1] & x & l2 & Heq & Hl1 & Hx & ->); simplify_eq/=;
          [done|].
        exists l1, x, l2. split_and!; [done| |done..].
        intros z Hz. apply Hl1. by right.
    + assert (¬ user_exists USERS user_id) as Hno.
      { intros Hex%existsb_user_exists. congruence. }
      split.
      * intros [= <-]. exists [], user_id, user_ids.
        split_and!; [done| |done..]. by intros ? ?%elem_of_nil.
      * intros ([|y l1] & x & l2 & Heq & Hl1 & Hx & ->); simplify_eq/=;
          [done|].
        exfalso. apply Hno, Hl1. by left.
Qed.

Lemma verify_users_no_Escape (user_ids : list string) (e : PyError) :
  verify_users USERS user_ids ≠ Escape e.
Proof.
  induction user_ids as [|user_id user_ids IH]; simpl; [done|].
  by destruct (existsb _ USERS).
Qed.

End Booking.

(** X20. The validation of [create_booking] hands a venue to the booking
    agent exactly when it is the first venue with the requested id, every
    requested user id belongs to some user, and the party size equals the
    number of user ids.  Otherwise it rejects, in this order: 404 for a
    missing venue; 404 naming the first user id without a user; 400 for a
    party size that differs from the number of user ids.  It lets no
    exception escape. *)
Theorem booking_validation :
  ∀ (USERS : list User.t) (VENUES : list Venue.t) (request : BookingRequest.t),
    let venue_id := BookingRequest.venue_id request in
    let user_ids := BookingRequest.user_ids request in
    let party_size := BookingRequest.party_size request in
    (∀ venue,
       create_booking_validation USERS VENUES request = Respond venue ↔
       next_venue VENUES venue_id = Some venue
       ∧ (∀ user_id, user_id ∈ user_ids → user_exists USERS user_id)
       ∧ party_size = Z.of_nat (length user_ids))
    ∧ (next_venue VENUES venue_id = None →
       create_booking_validation USERS VENUES request
       = Reject (HTTPException.mk 404 ("Venue " +:+ venue_id +:+ " not found")))
    ∧ (∀ venue l1 user_id l2,
         next_venue VENUES venue_id = Some venue →
         user_ids = l1 ++ user_id :: l2 →
         (∀ x, x ∈ l1 → user_exists USERS x) →
         ¬ user_exists USERS user_id →
         create_booking_validation USERS VENUES request
         = Reject (HTTPException.mk 404 ("User " +:+ user_id +:+ " not found")))
    ∧ (∀ venue,
         next_venue VENUES venue_id = Some venue →
         (∀ user_id, user_id ∈ user_ids → user_exists USERS user_id) →
         party_size ≠ Z.of_nat (length user_ids) →
         create_booking_validation USERS VENUES request
         = Reject (HTTPException.mk 400
                     ("Party size (" +:+ pretty party_size
                      +:+ ") doesn't match number of users ("
                      +:+ pretty (length user_ids) +:+ ")")))
    ∧ (∀ e, create_booking_validation USERS VENUES request ≠ Escape e).
Proof.
  intros USERS VENUES request. cbv zeta.
  unfold create_booking_validation.
  generalize (BookingRequest.venue_id request) as venue_id.
  generalize (BookingRequest.user_ids request) as user_ids.
  generalize (BookingRequest.party_size request) as party_size.
  intros party_size user_ids venue_id.
  split_and!.
  - intros venue. destruct (next_venue VENUES venue_id) as [v|]; simpl.
    2: { split; [done|]. by intros [? _]. }
    destruct (verify_users USERS user_ids) as [[]|e|e] eqn:Hv; simpl.
    + pose proof (proj1 (verify_users_Respond _ _) Hv) as Hall.
      destruct (bool_decide (party_size ≠ _)) eqn:Hsize.
      * apply bool_decide_eq_true in Hsize. split; [done|]. by intros (_ & _ & ?).
      * apply bool_decide_eq_false in Hsize. apply dec_stable in Hsize.
        split; [by intros [= ->]|]. by intros ([= ->] & _).
    + split; [done|]. intros (_ & Hall & _).
      apply (proj2 (verify_users_Respond _ _)) in Hall. congruence.
    + by apply verify_users_no_Escape in Hv.
  - by intros ->.
  - intros venue l1 user_id l2 -> Hids Hl1 Hno. simpl.
    assert (verify_users USERS user_ids
            = Reject (HTTPException.mk 404
                        ("User " +:+ user_id +:+ " not found"))) as ->
      by (apply verify_users_Reject; by exists l1, user_id, l2).
    done.
  - intros venue -> Hall Hsize.
    apply (proj2 (verify_users_Respond _ _)) in Hall.
    simpl. rewrite Hall. simpl. by rewrite bool_decide_true.
  - intros e. destruct (next_venue VENUES venue_id); simpl; [|done].
    destruct (verify_users USERS user_ids) as [[]|e'|e'] eqn:Hv; simpl.
    + by destruct (bool_decide _).
    + done.
    + by apply verify_users_no_Escape in Hv.
Qed.

Lemma booking_validation_witness :
  let request ids size := BookingRequest.mk "venue1" ids "2026-01-10" "19:30" size in
  create_booking_validation mock_data.USERS mock_data.VENUES
    (request ["user1"; "user2"] 2%Z) = Respond venue1
  ∧ create_booking_validation mock_data.USERS mock_data.VENUES
      (request ["user1"; "user6"; "user7"] 3%Z)
    = Reject (HTTPException.mk 404 "User user6 not found")
  ∧ create_booking_validation mock_data.USERS mock_data.VENUES
      (request ["user1"; "user2"] 3%Z)
    = Reject (HTTPException.mk 400
                "Party size (3) doesn't match number of users (2)").
Proof.
  intros request.
  assert (user_exists mock_data.USERS "user1") as H1
    by (exists user1; split; [left|done]).
  assert (user_exists mock_data.USERS "user2") as H2
    by (exists user2; split; [right; left|done]).
  assert (¬ user_exists mock_data.USERS "user6") as H6.
  { intros (u & Hu & Hid). unfold mock_data.USERS in Hu.
    repeat (apply elem_of_cons in Hu as [-> | Hu]; [discriminate Hid|]).
    by apply elem_of_nil in Hu. }
  split_and!.
  - apply (booking_validation mock_data.USERS mock_data.VENUES
             (request ["user1"; "user2"] 2%Z)).
    split_and!; [reflexivity| |reflexivity].
    intros x [-> | Hx]%elem_of_cons; [done|].
    by apply list_elem_of_singleton in Hx as ->.
  - destruct (booking_validation mock_data.USERS mock_data.VENUES
                (request ["user1"; "user6"; "user7"] 3%Z))
      as (_ & _ & Huser & _).
    apply (Huser venue1 ["user1"] "user6" ["user7"]); [reflexivity..| |done].
    by intros x ->%list_elem_of_singleton.
  - destruct (booking_validation mock_data.USERS mock_data.VENUES
                (request ["user1"; "user2"] 3%Z))
      as (_ & _ & _ & Hsize & _).
    apply (Hsize venue1); [reflexivity| |done].
    intros x [-> | Hx]%elem_of_cons; [done|].
    by apply list_elem_of_singleton in Hx as ->.
Defined.

(** ** The shipped data *)

Lemma mock_users_well_formed (u : User.t) :
  u ∈ mock_data.USERS →
  User.interests u ≠ [] ∧ known_price_range (User.preferred_price_range u).
Proof.
  unfold mock_data.USERS. intros Hu.
  repeat (apply elem_of_cons in Hu as [-> | Hu];
          [split; [discriminate|unfold known_price_range; simpl; auto]|]).
  by apply elem_of_nil in Hu.
Qed.

Lemma mock_venues_well_formed (v : Venue.t) :
  v ∈ mock_data.VENUES → Venue.tags v ≠ [].
Proof.
  unfold mock_data.VENUES. intros Hv.
  repeat (apply elem_of_cons in Hv as [-> | Hv]; [discriminate|]).
  by apply elem_of_nil in Hv.
Qed.

(** X21. On the shipped users and venues no request makes the engine raise:
    for every user id and every cap both recommendation endpoints either
    reject with status 404 (unknown id) or return a body; for each of the
    five known ids and a cap [top_n >= 0] the venue endpoint returns
    [min(top_n, 20, 6)] recommendations and the people endpoint
    [min(top_n, 4)]. *)
Theorem shipped_data_never_raises :
  ∀ (user_id : string) (top_n : Z),
    (∀ e, get_venue_recommendations mock_data.USERS mock_data.VENUES
            user_id top_n ≠ Escape e)
    ∧ (∀ e, get_people_recommendations mock_data.USERS user_id top_n ≠ Escape e)
    ∧ (user_id ∈ ["user1"; "user2"; "user3"; "user4"; "user5"] →
       (0 <= top_n)%Z →
       (∃ body,
          get_venue_recommendations mock_data.USERS mock_data.VENUES
            user_id top_n = Respond body
          ∧ length body = Nat.min (Z.to_nat (Z.min top_n 20)) 6)
       ∧ (∃ body,
            get_people_recommendations mock_data.USERS user_id top_n
            = Respond body
            ∧ length body = Nat.min (Z.to_nat top_n) 4)).
Proof.
  intros user_id top_n.
  assert (∀ user n, user ∈ mock_data.USERS →
            ∃ body, recommend_venues user mock_data.VENUES mock_data.USERS n
                    = Return body) as Hvenues.
  { intros user n [Hi Hp]%mock_users_well_formed.
    destruct (recommend_venues_well_formed user mock_data.VENUES
                mock_data.USERS n) as (body & Hbody & _); [|done..| |by exists body].
    - apply mock_venues_well_formed.
    - intros o Ho _. by apply mock_users_well_formed. }
  assert (∀ user n, user ∈ mock_data.USERS →
            ∃ body, recommend_people user mock_data.USERS n = Return body)
    as Hpeople.
  { intros user n [Hi Hp]%mock_users_well_formed.
    apply recommend_people_Return_iff. intros o Ho _.
    split_and!; [by left|done|by apply mock_users_well_formed]. }
  split_and!.
  - intros e. unfold get_venue_recommendations.
    destruct (next_user mock_data.USERS user_id) as [user|] eqn:Hu; [|done].
    apply next_user_elem_of in Hu as [Hin _].
    by destruct (Hvenues user (if (20 <? top_n)%Z then 20%Z else top_n) Hin)
      as [body ->].
  - intros e. unfold get_people_recommendations.
    destruct (next_user mock_data.USERS user_id) as [user|] eqn:Hu; [|done].
    apply next_user_elem_of in Hu as [Hin _].
    by destruct (Hpeople user top_n Hin) as [body ->].
  - intros Hid Hn.
    assert (∃ user, next_user mock_data.USERS user_id = Some user
                    ∧ user ∈ mock_data.USERS
                    ∧ length (others user mock_data.USERS) = 4%nat)
      as (user & Hnext & Hin & Hothers).
    { repeat (apply elem_of_cons in Hid as [-> | Hid];
              [eexists; split; [reflexivity|];
               split; [unfold mock_data.USERS; set_solver|reflexivity]|]).
      by apply elem_of_nil in Hid. }
    split.
    + destruct (Hvenues user (if (20 <? top_n)%Z then 20%Z else top_n) Hin)
        as [body Hbody].
      exists body. unfold get_venue_recommendations. rewrite Hnext, Hbody.
      split; [done|].
      apply recommend_venues_length in Hbody. rewrite Hbody.
      destruct (20 <? top_n)%Z eqn:E1;
        destruct (_ <? 0)%Z eqn:E2; simpl length; lia.
    + destruct (Hpeople user top_n Hin) as [body Hbody].
      exists body. unfold get_people_recommendations. rewrite Hnext, Hbody.
      split; [done|].
      apply recommend_people_Return in Hbody as (cs & Hcs & ->).
      apply Forall2_length in Hcs.
      rewrite py_slice_to_nonneg, length_take, sort_reverse_length by done.
      by rewrite <- Hcs, Hothers.
Qed.

Lemma shipped_data_never_raises_witness :
  (∃ body,
     get_venue_recommendations mock_data.USERS mock_data.VENUES "user3" 5
     = Respond body ∧ length body = 5%nat)
  ∧ (∃ body,
       get_people_recommendations mock_data.USERS "user3" 10 = Respond body
       ∧ length body = 4%nat).
Proof.
  destruct (shipped_data_never_raises "user3" 5%Z) as (_ & _ & H5).
  destruct (shipped_data_never_raises "user3" 10%Z) as (_ & _ & H10).
  split.
  - apply H5; [set_solver|lia].
  - apply H10; [set_solver|lia].
Defined.
